(** * python_import_quiz: the harness of [quiz.py]

    A shallow embedding of class [PackagingQuiz] (quiz.py): fixture
    discovery ([get_test_cases]), the fixture runner ([run_test_case]),
    the prediction check ([check_prediction]), the score loop of
    [run_quiz] and the final report ([display_final_score]).

    Conventions.
    - A Python [str] is a [string]; [str.lower] is modelled on ASCII
      letters (other characters are left as they are) and [a in b] on
      strings as the substring test [contains].
    - A Python [int] is a [Z]; the [float] of [display_final_score] is a
      binary64 [PrimFloat.float].
    - The result dictionary of [run_test_case] has the keys "success",
      "output" and "stderr" on every path and the keys "returncode" and
      "error" on some: it is the record [result], an absent key being
      [None].
    - Calls into the operating system (temporary directory, copy, file
      tests, child process) are answered by a [world] record; what the
      runner does to the outside is recorded as a list of [event]s. *)

From Stdlib Require Import List String Ascii Bool ZArith Lia.
From Stdlib Require Import Permutation Sorted.
From Stdlib Require Import PrimFloat Uint63.
Import ListNotations.

Local Open Scope string_scope.
Local Open Scope Z_scope.

(* ================================================================== *)
(** ** Python strings *)

Module PyStr.

(** [c] is one of 'A'..'Z'. *)
Definition is_upper (c : ascii) : bool :=
  let n := N_of_ascii c in (N.leb 65 n && N.leb n 90)%bool.

Definition lower_ascii (c : ascii) : ascii :=
  if is_upper c then ascii_of_N (N_of_ascii c + 32) else c.

(** [s.lower()] *)
Fixpoint lower (s : string) : string :=
  match s with
  | EmptyString => EmptyString
  | String c s' => String (lower_ascii c) (lower s')
  end.

(** [needle in hay] *)
Fixpoint contains (needle hay : string) : bool :=
  if String.prefix needle hay then true
  else match hay with
       | EmptyString => false
       | String _ hay' => contains needle hay'
       end.

(** [s.startswith(p)] *)
Definition startswith (s p : string) : bool := String.prefix p s.

(** [any(err in text for err in markers)] *)
Definition any_in (markers : list string) (text : string) : bool :=
  existsb (fun err => contains err text) markers.

End PyStr.
Import PyStr.

(* ================================================================== *)
(** ** Execution results *)

(** The dictionary returned by [run_test_case]. *)
Record result : Type := mkResult {
  success    : bool;
  returncode : option Z;
  output     : string;
  stderr     : string;
  error      : option string
}.

(** [result.get("error", "")] *)
Definition get_error (r : result) : string :=
  match error r with Some e => e | None => "" end.

(* ================================================================== *)
(** ** check_prediction (quiz.py, lines 203-241) *)

Definition check_prediction (prediction : string) (r : result) : bool :=
  if (prediction =? "skip")%string then false
  else
    let actual_success := success r in
    let stderr := lower (stderr r) in
    let error := lower (get_error r) in
    if (prediction =? "success")%string then actual_success
    else if (prediction =? "importerror")%string then
      negb actual_success
      && (contains "importerror" stderr || contains "importerror" error)
    else if (prediction =? "modulenotfounderror")%string then
      negb actual_success
      && (contains "modulenotfounderror" stderr
          || contains "no module named" stderr)
    else if (prediction =? "attributeerror")%string then
      negb actual_success
      && (contains "attributeerror" stderr || contains "attributeerror" error)
    else if (prediction =? "syntaxerror")%string then
      negb actual_success
      && (contains "syntaxerror" stderr || contains "syntaxerror" error)
    else if (prediction =? "other")%string then
      negb actual_success
      && negb (any_in ["importerror"; "modulenotfounderror";
                       "attributeerror"; "syntaxerror"] stderr)
    else false.


(* ================================================================== *)
(** ** Paths *)

(** A [pathlib.Path] as the tuple of its parts: [Path("test_cases")] is
    [["test_cases"]], [Path("/tmp/x")] is [["/"; "tmp"; "x"]] and
    [Path(".")] is [[]]. *)
Definition Path : Type := list string.

(** [p.name]: the last part, the empty string for "." and for the root. *)
Definition name (p : Path) : string :=
  match p with
  | [a] => if (a =? "/")%string then "" else a
  | _ => last p ""
  end.

(** [p / segment], for a segment that is a file name or empty (no
    separator in it): an empty segment gives [p] back. *)
Definition joinpath (p : Path) (segment : string) : Path :=
  if (segment =? "")%string then p else (p ++ [segment])%list.

Notation "p // s" := (joinpath p s) (at level 40, left associativity).

(** [str(p)] *)
Definition str_path (p : Path) : string :=
  match p with
  | [] => "."
  | "/" :: rest => "/" ++ String.concat "/" rest
  | _ => String.concat "/" p
  end.

(** The order of [Path.__lt__] on POSIX paths: the parts are compared as
    tuples of strings. *)
Fixpoint path_compare (p q : Path) : comparison :=
  match p, q with
  | [], [] => Eq
  | [], _ :: _ => Lt
  | _ :: _, [] => Gt
  | a :: p', b :: q' =>
      match String.compare a b with
      | Eq => path_compare p' q'
      | c => c
      end
  end.

Definition path_ltb (p q : Path) : bool :=
  match path_compare p q with Lt => true | _ => false end.

(* ================================================================== *)
(** ** Exceptions, the outside world and the interpreter state *)

(** The exceptions the harness tells apart: [except
    subprocess.TimeoutExpired], [except Exception] (any other instance
    of [Exception], with its class name and [str(e)]), and what neither
    clause catches (a [BaseException] outside [Exception], such as
    [KeyboardInterrupt]). *)
Inductive exn : Type :=
| TimeoutExpired
| PyException (cls msg : string)
| PyBaseException (cls : string).


(** What [subprocess.run] returns. *)
Record CompletedProcess : Type := mkCompleted {
  cp_returncode : Z;
  cp_stdout : string;
  cp_stderr : string
}.

(** The answers of the operating system. *)
Record world : Type := mkWorld {
  (** [Path.exists] *)
  exists_ : Path -> bool;
  (** [Path.is_dir] *)
  is_dir : Path -> bool;
  (** the names [Path.iterdir] yields, in the order of the system *)
  listdir : Path -> exn + list string;
  (** [tempfile.TemporaryDirectory()] *)
  mkdtemp : exn + Path;
  (** [shutil.copytree(src, dst)]; [None] when the copy succeeds *)
  copytree : Path -> Path -> option exn;
  (** [sys.executable] *)
  executable : string;
  (** [subprocess.run(args, cwd=.., capture_output=True, text=True,
      timeout=..)] *)
  subprocess_run : list string -> string -> Z -> exn + CompletedProcess
}.

(** What a method does to the outside. *)
Inductive event : Type :=
| Print (line : string)
| PrintScore (score total : Z) (percentage : float)
| Mkdtemp (temp_dir : Path)
| Copytree (src dst : Path)
| Spawn (args : list string) (cwd : string) (timeout : Z)
| Cleanup (temp_dir : Path).

(** The object [self] of class [PackagingQuiz]. *)
Record PackagingQuiz : Type := mkQuiz {
  test_cases_dir : Path;
  score : Z;
  total_questions : Z
}.

Record state : Type := mkState {
  self : PackagingQuiz;
  log : list event
}.

(** A method: it reads and updates the state and returns or raises. The
    state survives an exception, as the object does in Python. *)
Definition M (A : Type) : Type := state -> state * (exn + A).

Definition ret {A} (a : A) : M A := fun s => (s, inr a).

Definition raise {A} (e : exn) : M A := fun s => (s, inl e).

Definition bind {A B} (m : M A) (k : A -> M B) : M B :=
  fun s =>
    match m s with
    | (s', inr a) => k a s'
    | (s', inl e) => (s', inl e)
    end.

Declare Scope py_scope.
Delimit Scope py_scope with py.
Notation "x <- m ;; k" := (bind m (fun x => k))
  (at level 61, m at next level, right associativity) : py_scope.
Notation "m ;; k" := (bind m (fun _ => k))
  (at level 61, right associativity) : py_scope.
Local Open Scope py_scope.

(** The answer of a system call: returned or raised. *)
Definition call {A} (r : exn + A) : M A :=
  match r with inl e => raise e | inr a => ret a end.

Definition emit (ev : event) : M unit :=
  fun s => (mkState (self s) (log s ++ [ev])%list, inr tt).

Definition get_self : M PackagingQuiz := fun s => (s, inr (self s)).

Definition set_self (q : PackagingQuiz) : M unit :=
  fun s => (mkState q (log s), inr tt).

(** [try: body / except ...: handler]: [handler e] is [None] when no
    clause matches [e]. *)
Definition try_except {A} (body : M A) (handler : exn -> option (M A)) : M A :=
  fun s =>
    match body s with
    | (s', inl e) =>
        match handler e with
        | Some h => h s'
        | None => (s', inl e)
        end
    | r => r
    end.

(** [body] followed by [cleanup] on every way out of [body]. *)
Definition finally {A} (body : M A) (cleanup : M unit) : M A :=
  fun s =>
    match body s with
    | (s', r) =>
        match cleanup s' with
        | (s'', inr _) => (s'', r)
        | (s'', inl e) => (s'', inl e)
        end
    end.

(** [with tempfile.TemporaryDirectory() as temp_dir: body]. The
    directory is removed when the block is left; the removal itself is
    taken to succeed. *)
Definition with_TemporaryDirectory {A} (w : world) (body : Path -> M A) : M A :=
  temp_dir <- call (mkdtemp w) ;;
  emit (Mkdtemp temp_dir) ;;
  finally (body temp_dir) (emit (Cleanup temp_dir)).

(* ================================================================== *)
(** ** __init__ (quiz.py, lines 19-22) *)

Definition init (dir : Path) : PackagingQuiz :=
  {| test_cases_dir := dir; score := 0; total_questions := 0 |}.

(* ================================================================== *)
(** ** get_test_cases (quiz.py, lines 24-35) *)

(** [sorted(paths)]: a stable sort that compares with [<] only. *)
Fixpoint insert (x : Path) (l : list Path) : list Path :=
  match l with
  | [] => [x]
  | y :: l' => if path_ltb y x then y :: insert x l' else x :: y :: l'
  end.

Fixpoint sorted (l : list Path) : list Path :=
  match l with
  | [] => []
  | x :: l' => insert x (sorted l')
  end.

(** The condition of the comprehension: [d.is_dir() and not
    d.name.startswith(".")]. *)
Definition is_test_case (w : world) (d : Path) : bool :=
  is_dir w d && negb (startswith (name d) ".").

Definition get_test_cases (w : world) : M (list Path) :=
  q <- get_self ;;
  if negb (exists_ w (test_cases_dir q)) then
    emit (Print ("Error: Test cases directory '"
                 ++ str_path (test_cases_dir q) ++ "' not found!")) ;;
    ret []
  else
    names <- call (listdir w (test_cases_dir q)) ;;
    let test_cases :=
      filter (is_test_case w) (map (joinpath (test_cases_dir q)) names) in
    ret (sorted test_cases).

(* ================================================================== *)
(** ** run_test_case (quiz.py, lines 105-162) *)

Definition main_files : list string := ["main.py"; "run.py"; "test.py"].

(** The [for filename in main_files] loop with its [break]. *)
Fixpoint find_main_file (w : world) (test_copy : Path) (files : list string)
  : option Path :=
  match files with
  | [] => None
  | filename :: rest =>
      if exists_ w (test_copy // filename) then Some (test_copy // filename)
      else find_main_file w test_copy rest
  end.

Definition no_main_file_result : result :=
  {| success := false;
     error := Some "No main execution file found (main.py, run.py, or test.py)";
     output := "";
     stderr := "";
     returncode := None |}.

Definition completed_result (cp : CompletedProcess) : result :=
  {| success := (cp_returncode cp =? 0);
     returncode := Some (cp_returncode cp);
     output := cp_stdout cp;
     stderr := cp_stderr cp;
     error := None |}.

Definition timeout_result : result :=
  {| success := false;
     error := Some "Test timed out (10 seconds)";
     output := "";
     stderr := "";
     returncode := None |}.

Definition failed_result (msg : string) : result :=
  {| success := false;
     error := Some ("Failed to run test: " ++ msg);
     output := "";
     stderr := "";
     returncode := None |}.

(** The two [except] clauses of the runner. *)
Definition run_handler (e : exn) : option (M result) :=
  match e with
  | TimeoutExpired => Some (ret timeout_result)
  | PyException _ msg => Some (ret (failed_result msg))
  | PyBaseException _ => None
  end.

Definition run_test_case (w : world) (test_case_dir : Path) : M result :=
  with_TemporaryDirectory w (fun temp_path =>
    let test_copy := temp_path // name test_case_dir in
    emit (Copytree test_case_dir test_copy) ;;
    call (match copytree w test_case_dir test_copy with
          | Some e => inl e
          | None => inr tt
          end) ;;
    match find_main_file w test_copy main_files with
    | None => ret no_main_file_result
    | Some main_file =>
        try_except
          (let args := [executable w; str_path main_file] in
           let cwd := str_path test_copy in
           emit (Spawn args cwd 10) ;;
           cp <- call (subprocess_run w args cwd 10) ;;
           ret (completed_result cp))
          run_handler
    end).

(* ================================================================== *)
(** ** run_quiz (quiz.py, lines 281-321) *)

(** Lines 311-315: the prediction is checked and the counters updated. *)
Definition score_round (prediction : string) (r : result) : M bool :=
  let correct := check_prediction prediction r in
  (if negb (prediction =? "skip")%string then
     q <- get_self ;;
     set_self {| test_cases_dir := test_cases_dir q;
                 score := score q;
                 total_questions := total_questions q + 1 |} ;;
     if correct then
       q <- get_self ;;
       set_self {| test_cases_dir := test_cases_dir q;
                   score := score q + 1;
                   total_questions := total_questions q |}
     else ret tt
   else ret tt) ;;
  ret correct.

(** What the console does in one turn of the loop.
    [display_file_structure], [display_file_contents], [ask_prediction]
    and [display_result] only talk to the console and are not modelled
    line by line: [ask] is the prediction [ask_prediction] returns, or the
    exception raised before it does ([EOFError], [KeyboardInterrupt]);
    [ack] is the exception, if any, raised by [display_result] and its
    "Press Enter to continue" prompt. *)
Record turn : Type := mkTurn {
  ask : exn + string;
  ack : option exn
}.

(** The body of the loop, lines 297-318. *)
Definition quiz_round (w : world) (test_case : Path) (t : turn) : M unit :=
  prediction <- call (ask t) ;;
  r <- run_test_case w test_case ;;
  _ <- score_round prediction r ;;
  call (match ack t with Some e => inl e | None => inr tt end).

(** The [for i, test_case in enumerate(test_cases, 1)] loop; [console i]
    is the console in turn [i]. *)
Fixpoint quiz_loop (w : world) (console : nat -> turn) (i : nat)
  (test_cases : list Path) : M unit :=
  match test_cases with
  | [] => ret tt
  | test_case :: rest =>
      quiz_round w test_case (console i) ;;
      quiz_loop w console (S i) rest
  end.

(* ================================================================== *)
(** ** display_final_score (quiz.py, lines 323-348) *)

(** [float(n)], for an [n] of magnitude below [2^63]. *)
Definition float_of_int (n : Z) : float :=
  if n <? 0 then (- of_uint63 (Uint63.of_Z (- n)))%float
  else of_uint63 (Uint63.of_Z n).

(** [a / b] on two [int]s. Python rounds the exact quotient once; that is
    the quotient of the two floats as long as both convert exactly, which
    they do below [2^53]. *)
Definition py_truediv (a b : Z) : exn + float :=
  if b =? 0 then inl (PyException "ZeroDivisionError" "division by zero")
  else inr (float_of_int a / float_of_int b)%float.

(** The newline of a Python string literal. *)
Definition nl : string := String (ascii_of_nat 10) "".

(** [s * n] *)
Fixpoint str_mul (s : string) (n : nat) : string :=
  match n with
  | O => ""
  | S n' => s ++ str_mul s n'
  end.

Definition msg_excellent : string :=
  "🏆 Excellent! You're a Python packaging expert!".
Definition msg_good : string :=
  "👍 Good job! You have a solid understanding of Python packaging.".
Definition msg_not_bad : string :=
  "📚 Not bad! Keep studying Python packaging concepts.".
Definition msg_keep_practicing : string :=
  "💪 Keep practicing! Python packaging can be tricky.".
Definition msg_no_questions : string := "No questions were answered.".

Definition display_final_score : M unit :=
  emit (Print (nl ++ str_mul "=" 60)) ;;
  emit (Print "QUIZ COMPLETE!") ;;
  emit (Print (str_mul "=" 60)) ;;
  q <- get_self ;;
  (if total_questions q >? 0 then
     ratio <- call (py_truediv (score q) (total_questions q)) ;;
     let percentage := (ratio * 100)%float in
     emit (PrintScore (score q) (total_questions q) percentage) ;;
     if (90 <=? percentage)%float then emit (Print msg_excellent)
     else if (70 <=? percentage)%float then emit (Print msg_good)
     else if (50 <=? percentage)%float then emit (Print msg_not_bad)
     else emit (Print msg_keep_practicing)
   else emit (Print msg_no_questions)) ;;
  emit (Print (nl ++ "Thanks for taking the quiz!")).

(** [run_quiz]: the fixtures are listed, each is played, the score is
    reported. The banner and the "Press Enter to start" prompt are
    console talk and left out. *)
Definition run_quiz (w : world) (console : nat -> turn) : M unit :=
  test_cases <- get_test_cases w ;;
  match test_cases with
  | [] =>
      emit (Print "No test cases found. Please create some test cases first.")
  | _ :: _ =>
      quiz_loop w console 1%nat test_cases ;;
      display_final_score
  end.


(* ================================================================== *)
(** ** main (quiz.py, lines 351-361) *)

(** [str(e)] as the two [print] calls of [main] format it. A
    [TimeoutExpired] names its command; [run_test_case] catches the ones
    [subprocess.run] raises, so none of them reaches [main] from there. *)
Definition str_exn (e : exn) : string :=
  match e with
  | TimeoutExpired => "Command timed out after 10 seconds"
  | PyException _ msg => msg
  | PyBaseException _ => ""
  end.

(** The two [except] clauses of [main]: [except KeyboardInterrupt],
    then [except Exception as e]. *)
Definition main_handler (e : exn) : option (M unit) :=
  match e with
  | PyBaseException cls =>
      if (cls =? "KeyboardInterrupt")%string then
        Some (emit (Print (nl ++ nl ++ "Quiz interrupted. Thanks for playing!")))
      else None
  | _ =>
      Some (emit (Print (nl ++ "An error occurred: " ++ str_exn e)) ;;
            emit (Print "Please check your test cases and try again."))
  end.

(** [quiz = PackagingQuiz()] makes the object anew, with the default
    root "test_cases". *)
Definition main (w : world) (console : nat -> turn) : M unit :=
  set_self (init ["test_cases"]) ;;
  try_except (run_quiz w console) main_handler.

(* ================================================================== *)
(** ** ask_prediction (quiz.py, lines 164-201) *)

(** [c.isspace()] on ASCII: tab to carriage return, the four separators
    28 to 31, and the space. *)
Definition is_space (c : ascii) : bool :=
  let n := N_of_ascii c in
  (N.leb 9 n && N.leb n 13) || (N.leb 28 n && N.leb n 32).

(** [s.lstrip()], [s.rstrip()] and [s.strip()] *)
Fixpoint lstrip (s : string) : string :=
  match s with
  | String c s' => if is_space c then lstrip s' else s
  | EmptyString => EmptyString
  end.

Fixpoint rstrip (s : string) : string :=
  match s with
  | String c s' =>
      match rstrip s' with
      | EmptyString => if is_space c then EmptyString else String c EmptyString
      | t => String c t
      end
  | EmptyString => EmptyString
  end.

Definition strip (s : string) : string := rstrip (lstrip s).

(** The value of a decimal digit '0'..'9'. *)
Definition digit_value (c : ascii) : option Z :=
  let n := N_of_ascii c in
  if (N.leb 48 n && N.leb n 57)%bool then Some (Z.of_N n - 48) else None.

(** The digits of a decimal literal, with single underscores between
    digits only; [after_digit] says that the character before was a
    digit. *)
Fixpoint parse_digits (s : string) (acc : Z) (after_digit : bool)
  : option Z :=
  match s with
  | EmptyString => if after_digit then Some acc else None
  | String c s' =>
      match digit_value c with
      | Some d => parse_digits s' (10 * acc + d) true
      | None =>
          if (Ascii.eqb c "_" && after_digit)%bool
          then parse_digits s' acc false
          else None
      end
  end.

(** [int(s)] on an ASCII string, [None] for [ValueError]: blanks around,
    a sign, decimal digits. (The cap on the number of digits of recent
    interpreters is left out; it concerns lines of more than 4300
    characters.) *)
Definition py_int (s : string) : option Z :=
  match strip s with
  | String "+" digits => parse_digits digits 0 false
  | String "-" digits => option_map Z.opp (parse_digits digits 0 false)
  | digits => parse_digits digits 0 false
  end.

(** The dictionary [predictions], [None] for a missing key. *)
Definition predictions (choice_num : Z) : option string :=
  match choice_num with
  | 1 => Some "success"
  | 2 => Some "importerror"
  | 3 => Some "modulenotfounderror"
  | 4 => Some "attributeerror"
  | 5 => Some "syntaxerror"
  | 6 => Some "other"
  | _ => None
  end.

Definition EOFError : exn := PyException "EOFError" "EOF when reading a line".

(** The [while True] loop. [stdin] holds the lines still to be read, one
    per call of [input]; at the end of the input [input] raises
    [EOFError], which the [except ValueError] clause lets through. The
    outcome is what [print] printed (the prompt that [input] writes is
    not recorded), the lines left unread and the prediction returned or
    the exception raised. *)
Fixpoint ask_prediction_loop (stdin : list string)
  : list event * (list string * (exn + string)) :=
  match stdin with
  | [] => ([], ([], inl EOFError))
  | line :: rest =>
      let choice := lower (strip line) in
      if (choice =? "skip")%string then ([], (rest, inr "skip"))
      else
        match py_int choice with
        | None =>
            let '(printed, outcome) := ask_prediction_loop rest in
            (Print "Please enter a valid number or 'skip'" :: printed, outcome)
        | Some choice_num =>
            if ((1 <=? choice_num) && (choice_num <=? 6))%bool then
              match predictions choice_num with
              | Some prediction => ([], (rest, inr prediction))
              | None =>
                  ([], (rest, inl (PyException "KeyError" "")))
              end
            else
              let '(printed, outcome) := ask_prediction_loop rest in
              (Print "Please enter a number between 1-6 or 'skip'" :: printed,
               outcome)
        end
  end.

(** The lines of the menu, lines 166-178. *)
Definition menu : list event :=
  [Print (nl ++ str_mul "=" 60);
   Print "MAKE YOUR PREDICTION:";
   Print (str_mul "=" 60);
   Print "What do you think will happen when this code runs?";
   Print "";
   Print "Options:";
   Print "1. Success - Code will run without errors";
   Print "2. ImportError - Module/package import will fail";
   Print "3. ModuleNotFoundError - Module cannot be found";
   Print "4. AttributeError - Attribute access will fail";
   Print "5. SyntaxError - Code has syntax errors";
   Print "6. Other error - Different type of error";
   Print ""].

Definition ask_prediction (stdin : list string)
  : list event * (list string * (exn + string)) :=
  let '(printed, outcome) := ask_prediction_loop stdin in
  ((menu ++ printed)%list, outcome).


(* ================================================================== *)
(** ** display_file_structure and display_file_contents
       (quiz.py, lines 37-92) *)

(** A fixture directory as the two displays walk it: a finite tree of
    files (with what reading them gives: the text, or the message of the
    [Exception] raised), directories and other entries (what is neither
    a regular file nor a directory). *)
#[local] Set Warnings "-register-all".

Inductive node : Type :=
| File (file_name : string) (content : string + string)
| Dir (dir_name : string) (children : list node)
| Other (entry_name : string).

(** [item.name], [item.is_file()], [item.is_dir()] *)
Definition node_name (item : node) : string :=
  match item with
  | File n _ | Dir n _ | Other n => n
  end.

Definition node_is_file (item : node) : bool :=
  match item with File _ _ => true | _ => false end.

Definition node_is_dir (item : node) : bool :=
  match item with Dir _ _ => true | _ => false end.

(** [sorted(items, key=...)]: a stable sort, [ltb] comparing the keys of
    two items. *)
Fixpoint insert_by {A} (ltb : A -> A -> bool) (x : A) (l : list A) : list A :=
  match l with
  | [] => [x]
  | y :: l' => if ltb y x then y :: insert_by ltb x l' else x :: y :: l'
  end.

Fixpoint sort_by {A} (ltb : A -> A -> bool) (l : list A) : list A :=
  match l with
  | [] => []
  | x :: l' => insert_by ltb x (sort_by ltb l')
  end.

(** [k1 < k2] on keys that are pairs of a flag and a name. *)
Definition key_ltb (k1 k2 : bool * string) : bool :=
  match fst k1, fst k2 with
  | false, true => true
  | true, false => false
  | _, _ => String.ltb (snd k1) (snd k2)
  end.

(** The keys [(x.is_file(), x.name)] and [(x.is_dir(), x.name)]. *)
Definition tree_key (item : node) : bool * string :=
  (node_is_file item, node_name item).

Definition contents_key (item : node) : bool * string :=
  (node_is_dir item, node_name item).

(** An item of a directory together with what the walk prints for it.
    The lines of an item are worked out before the items are sorted, so
    that the walk follows the structure of the tree; the sort looks at
    the item only and moves its lines with it. *)
Definition walked (lines : Type) : Type := node * lines.

Definition sort_walked {lines} (key : node -> bool * string)
  (items : list (walked lines)) : list (walked lines) :=
  sort_by (fun a b => key_ltb (key (fst a)) (key (fst b))) items.

(** The [for i, item in enumerate(items)] loop of [print_tree];
    [is_last] holds for the item with nothing after it. *)
Fixpoint print_items (items : list (walked (string -> bool -> list event)))
  (prefix : string) : list event :=
  match items with
  | [] => []
  | (_, lines) :: rest =>
      (lines prefix (match rest with [] => true | _ => false end)
       ++ print_items rest prefix)%list
  end.

(** The body of that loop for [item]. *)
Fixpoint print_item (item : node) (prefix : string) (is_last : bool)
  : list event :=
  let current_prefix := if is_last then "└── " else "├── " in
  Print (prefix ++ current_prefix ++ node_name item)
  :: match item with
     | Dir n children =>
         if negb (startswith n ".") then
           let next_prefix := prefix ++ (if is_last then "    " else "│   ") in
           print_items
             (sort_walked tree_key (map (fun c => (c, print_item c)) children))
             next_prefix
         else []
     | _ => []
     end.

(** [print_tree(path, prefix)] for a directory with these [children]. *)
Definition print_tree (children : list node) (prefix : string) : list event :=
  print_items (sort_walked tree_key (map (fun c => (c, print_item c)) children))
    prefix.

(** [display_file_structure(test_case_dir)] *)
Definition display_file_structure (test_case_name : string)
  (children : list node) : list event :=
  ([Print (nl ++ str_mul "=" 60);
    Print ("TEST CASE: " ++ test_case_name);
    Print (str_mul "=" 60);
    Print (nl ++ "File Structure:");
    Print (test_case_name ++ "/")]
   ++ print_tree children "")%list.

(** [s.rfind(".")]: the index of the last dot. *)
Fixpoint rfind_dot (s : string) : option nat :=
  match s with
  | EmptyString => None
  | String c s' =>
      match rfind_dot s' with
      | Some i => Some (S i)
      | None => if Ascii.eqb c "." then Some O else None
      end
  end.

(** [item.suffix]: the name from its last dot on, when that dot is
    neither the first nor the last character. *)
Definition suffix (n : string) : string :=
  match rfind_dot n with
  | Some i =>
      if (Nat.ltb 0 i && Nat.ltb i (String.length n - 1))%bool
      then String.substring i (String.length n - i) n
      else ""
  | None => ""
  end.

(** The test of line 74. *)
Definition is_shown_file (n : string) : bool :=
  (suffix n =? ".py")%string
  || existsb (String.eqb n) ["__init__.py"; "setup.py"; "pyproject.toml"].

(** The lines 79-88 for one file: the header, then the text, "(empty
    file)" for a blank text, or the message of the failed read. *)
Definition show_file (current_path : string) (content : string + string)
  : list event :=
  [Print (nl ++ "📄 " ++ current_path ++ ":");
   match content with
   | inr text =>
       if (strip text =? "")%string then Print "(empty file)" else Print text
   | inl msg => Print ("Error reading file: " ++ msg)
   end].

(** The [for item in items] loop of [show_files]. *)
Definition show_items (items : list (walked (string -> list event)))
  (relative_path : string) : list event :=
  flat_map (fun it => snd it relative_path) items.

(** The body of that loop for [item]. *)
Fixpoint show_item (item : node) (relative_path : string) : list event :=
  if startswith (node_name item) "." then []
  else
    let current_path :=
      if (relative_path =? "")%string then node_name item
      else relative_path ++ "/" ++ node_name item in
    match item with
    | File n content =>
        if is_shown_file n then show_file current_path content else []
    | Dir _ children =>
        show_items
          (sort_walked contents_key (map (fun c => (c, show_item c)) children))
          current_path
    | Other _ => []
    end.

(** [show_files(path, relative_path)] for a directory with these
    [children]. *)
Definition show_files (children : list node) (relative_path : string)
  : list event :=
  show_items
    (sort_walked contents_key (map (fun c => (c, show_item c)) children))
    relative_path.

(** [display_file_contents(test_case_dir)] *)
Definition display_file_contents (children : list node) : list event :=
  ([Print (nl ++ "File Contents:"); Print (str_mul "-" 40)]
   ++ show_files children "")%list.

(* ================================================================== *)
(** * Vocabulary of the statements *)

(** The state [s] once the events [evs] have happened. *)
Definition after (s : state) (evs : list event) : state :=
  {| self := self s; log := (log s ++ evs)%list |}.

(** [ev] is the launch of a child process. *)
Definition is_spawn (ev : event) : bool :=
  match ev with Spawn _ _ _ => true | _ => false end.

(** [p <= q] on paths, that is [not (q < p)]. *)
Definition path_le (p q : Path) : Prop := path_compare p q <> Gt.

(** [n] is the name of a directory entry: not empty, no separator. *)
Definition is_file_name (n : string) : bool :=
  negb (n =? "")%string && negb (contains "/" n).

(** What [get_test_cases] returns, as a function of the root: the
    method leaves the object as it is. *)
Definition listing (w : world) (root : Path) : exn + list Path :=
  if exists_ w root then
    match listdir w root with
    | inl e => inl e
    | inr names =>
        inr (sorted (filter (is_test_case w) (map (joinpath root) names)))
    end
  else inr [].

(** The counters after a scored turn. *)
Definition scored (prediction : string) (r : result) (q : PackagingQuiz)
  : PackagingQuiz :=
  if (prediction =? "skip")%string then q
  else {| test_cases_dir := test_cases_dir q;
          score := score q + (if check_prediction prediction r then 1 else 0);
          total_questions := total_questions q + 1 |}.

(** The invariant of the loop. *)
Definition score_ok (q : PackagingQuiz) : Prop :=
  0 <= score q <= total_questions q.

(** The counters never go down. *)
Definition grows (q q' : PackagingQuiz) : Prop :=
  score q <= score q' /\ total_questions q <= total_questions q'.

(** The percentage of line 330. *)
Definition percentage_of (q : PackagingQuiz) : float :=
  (float_of_int (score q) / float_of_int (total_questions q) * 100)%float.

(** The three lines of the banner. *)
Definition banner : list event :=
  [Print (nl ++ str_mul "=" 60); Print "QUIZ COMPLETE!";
   Print (str_mul "=" 60)].

Definition farewell : event := Print (nl ++ "Thanks for taking the quiz!").

(** [ev] prints a score line, that is, a percentage was computed. *)
Definition is_score_line (ev : event) : bool :=
  match ev with PrintScore _ _ _ => true | _ => false end.

(** [ev] makes or removes a temporary directory. *)
Definition is_tempdir_event (ev : event) : bool :=
  match ev with Mkdtemp _ | Cleanup _ => true | _ => false end.

(** How many events of [evs] satisfy [f]. *)
Definition count_events (f : event -> bool) (evs : list event) : nat :=
  List.length (filter f evs).

Definition is_mkdtemp (ev : event) : bool :=
  match ev with Mkdtemp _ => true | _ => false end.

(** What one line typed at the prompt of [ask_prediction] amounts to:
    the prediction it stands for, or [None] when the prompt is shown
    again. *)
Definition answer (line : string) : option string :=
  let choice := lower (strip line) in
  if (choice =? "skip")%string then Some "skip"
  else
    match py_int choice with
    | Some choice_num =>
        if ((1 <=? choice_num) && (choice_num <=? 6))%bool
        then predictions choice_num
        else None
    | None => None
    end.

(** [line] is ASCII text of at most 4300 characters: there the models of
    [strip], [lower] and [int] agree with the interpreter. *)
Definition is_plain (line : string) : bool :=
  (Nat.leb (String.length line) 4300
   && forallb (fun c => N.ltb (N_of_ascii c) 128) (list_ascii_of_string line))%bool.

(** [ev] is one of the two messages that come before the prompt is
    shown again. *)
Definition is_reprompt (ev : event) : bool :=
  match ev with
  | Print line =>
      (line =? "Please enter a valid number or 'skip'")%string
      || (line =? "Please enter a number between 1-6 or 'skip'")%string
  | _ => false
  end.

(** [n] is the name of a hidden entry. *)
Definition is_hidden (n : string) : bool := startswith n ".".

(** The names of [item] and of everything below it that does not lie
    inside a hidden directory, in the order of the tree. *)
Fixpoint visible_names (item : node) : list string :=
  node_name item
  :: match item with
     | Dir n children =>
         if is_hidden n then [] else flat_map visible_names children
     | _ => []
     end.

(** A line of the tree display: the drawing, then the name. *)
Definition tree_line (entry : string * string) : event :=
  Print (fst entry ++ snd entry).


(** What [show_files] prints for the files of [order]. *)
Definition file_blocks (order : list (string * (string + string)))
  : list event :=
  flat_map (fun entry => show_file (fst entry) (snd entry)) order.

(** The message for [correct] right answers out of [asked], with the
    percentage compared in exact arithmetic: at least nine in ten, seven
    in ten, one in two. *)
Definition exact_message (correct asked : Z) : string :=
  if 9 * asked <=? 10 * correct then msg_excellent
  else if 7 * asked <=? 10 * correct then msg_good
  else if asked <=? 2 * correct then msg_not_bad
  else msg_keep_practicing.

(** The message of lines 335-344 for a percentage. *)
Definition float_message (percentage : float) : string :=
  if (90 <=? percentage)%float then msg_excellent
  else if (70 <=? percentage)%float then msg_good
  else if (50 <=? percentage)%float then msg_not_bad
  else msg_keep_practicing.

(** The two agree for every score out of [asked] questions, and for
    every number of questions from 1 to [n]. *)
Definition messages_agree (asked : nat) : bool :=
  forallb
    (fun correct =>
       (float_message
          (float_of_int (Z.of_nat correct) / float_of_int (Z.of_nat asked)
           * 100)%float
        =? exact_message (Z.of_nat correct) (Z.of_nat asked))%string)
    (seq 0 (S asked)).

Definition messages_agree_up_to (n : nat) : bool :=
  forallb messages_agree (seq 1 n).

(** [a] is not after [b] in the order of [key]: [not (key(b) < key(a))]. *)
Definition listed_before (key : node -> bool * string) (a b : node) : Prop :=
  key_ltb (key b) (key a) = false.
(* ================================================================== *)
(** * Sample inputs *)

(** A failed run whose stderr carries both the module-not-found markers
    and the text "ImportError": an [ImportError] raised from a
    [ModuleNotFoundError]. *)
Definition chained_import_failure : result :=
  {| success := false;
     returncode := Some 1;
     output := "";
     stderr := "ModuleNotFoundError: No module named 'yaml'. "
               ++ "ImportError: yaml is required";
     error := None |}.


(** Harness-level failures as line 157-162 builds them, from a spawn
    failure whose message names a missing module, and from one whose
    message names an import error. *)
Definition spawn_failure_no_module : result :=
  failed_result "No module named 'encodings'".

Definition spawn_failure_importerror : result :=
  failed_result "ImportError: cannot load the interpreter".

(** [p == q] on paths. *)
Definition path_eqb (p q : Path) : bool :=
  match path_compare p q with Eq => true | _ => false end.

(** A fixture directory and the state of a fresh quiz. *)
Definition fixture : Path := ["test_cases"; "03_missing_module_error"].

Definition fresh : state :=
  {| self := init ["test_cases"]; log := [] |}.

Definition tmp_dir : Path := ["/"; "tmp"; "tmpq1w2e3"].

(** A world with the fixtures "01_basic", "02_pkg" and a hidden
    directory and a plain file beside them; [files] are the names of the
    files that exist in a copy, [copy] is what [shutil.copytree] answers
    and [run] what [subprocess.run] answers. *)
Definition sample_world (files : list string) (copy : option exn)
  (run : exn + CompletedProcess) : world :=
  {| exists_ := fun p =>
       path_eqb p ["test_cases"]
       || existsb (String.eqb (name p)) files;
     is_dir := fun p => negb (path_eqb p ["test_cases"; "README.md"]);
     listdir := fun _ => inr ["02_pkg"; ".git"; "README.md"; "01_basic"];
     mkdtemp := inr tmp_dir;
     copytree := fun _ _ => copy;
     executable := "/usr/bin/python3";
     subprocess_run := fun _ _ _ => run |}.

Definition permission_denied : exn :=
  PyException "PermissionError" "[Errno 13] Permission denied: 'main.py'".

Definition keyboard_interrupt : exn := PyBaseException "KeyboardInterrupt".

(** The child of fixture 03: it exits with status 1 and a traceback. *)
Definition missing_module_process : CompletedProcess :=
  {| cp_returncode := 1;
     cp_stdout := "";
     cp_stderr := "ModuleNotFoundError: No module named 'nonexistent_module'" |}.

Definition world_completed : world :=
  sample_world ["main.py"] None (inr missing_module_process).

Definition world_no_entry : world :=
  sample_world ["helper.py"] None (inr missing_module_process).

Definition world_timeout : world :=
  sample_world ["run.py"; "test.py"] None (inl TimeoutExpired).


Definition world_interrupted : world :=
  sample_world ["main.py"] None (inl keyboard_interrupt).

Definition world_copy_denied : world :=
  sample_world ["main.py"] (Some permission_denied) (inr missing_module_process).

(** The names the sample world lists under "test_cases". *)
Definition sample_names : list string :=
  ["02_pkg"; ".git"; "README.md"; "01_basic"].

(** A quiz with [correct] right answers out of [asked]. *)
Definition played (correct asked : Z) : state :=
  {| self := {| test_cases_dir := ["test_cases"];
                score := correct;
                total_questions := asked |};
     log := [] |}.

(** A console that predicts a missing module in the first turn and
    skips the others. *)
Definition sample_console (i : nat) : turn :=
  match i with
  | 1%nat => {| ask := inr "modulenotfounderror"; ack := None |}
  | _ => {| ask := inr "skip"; ack := None |}
  end.

(** A fixture like 07_relative_imports, with a hidden directory, a
    hidden file, an unreadable file, a blank file, a text file and a
    socket added. *)
Definition sample_tree : list node :=
  [File "main.py" (inr "import myproject");
   Dir "myproject"
     [File "core.py" (inr "x = 1");
      File "__init__.py" (inr "  ");
      Dir "utils"
        [File "string_utils.py" (inl "[Errno 13] Permission denied");
         File "math_utils.py" (inr "y = 2")];
      File "notes.txt" (inr "to do")];
   Dir ".git" [File "HEAD" (inr "ref: refs/heads/main")];
   File ".hidden.py" (inr "secret = 1");
   Other "socket"].
(* ================================================================== *)
(** * Properties of check_prediction *)

Section CheckPrediction.

Variable r : result.

(** The two texts the markers are looked up in. *)
Let err_text : string := lower (stderr r).
Let harness_text : string := lower (get_error r).

Lemma check_prediction_importerror :
  check_prediction "importerror" r
  = negb (success r)
    && (contains "importerror" err_text
        || contains "importerror" harness_text).
Proof. reflexivity. Qed.

Lemma check_prediction_modulenotfounderror :
  check_prediction "modulenotfounderror" r
  = negb (success r)
    && (contains "modulenotfounderror" err_text
        || contains "no module named" err_text).
Proof. reflexivity. Qed.

Lemma check_prediction_other :
  check_prediction "other" r
  = negb (success r)
    && negb (contains "importerror" err_text
             || contains "modulenotfounderror" err_text
             || contains "attributeerror" err_text
             || contains "syntaxerror" err_text).
Proof.
  unfold check_prediction, any_in; cbn [String.eqb Ascii.eqb Bool.eqb existsb].
  fold err_text. now rewrite orb_false_r, !orb_assoc.
Qed.

End CheckPrediction.

(** C8. The prediction "skip" matches no execution result, whatever its
    success flag, stderr and error fields are. *)
Theorem check_prediction_skip_never_matches :
  forall r : result, check_prediction "skip" r = false.
Proof. intro r. reflexivity. Qed.

(** C1, as stated, fails: the result above has a module-not-found marker
    in its stderr and the prediction "importerror" matches it all the
    same. *)
Lemma importerror_matches_despite_module_marker :
  success chained_import_failure = false
  /\ contains "modulenotfounderror" (lower (stderr chained_import_failure)) = true
  /\ contains "no module named" (lower (stderr chained_import_failure)) = true
  /\ check_prediction "modulenotfounderror" chained_import_failure = true
  /\ check_prediction "importerror" chained_import_failure = true.
Proof. repeat split; vm_compute; reflexivity. Qed.

(** C1, amended. For a failed run whose lower-cased stderr contains
    "modulenotfounderror" or "no module named", the prediction
    "modulenotfounderror" matches; the markers have no priority over one
    another, so the prediction "importerror" matches exactly when
    "importerror" occurs in the lower-cased stderr or harness error text,
    a module-not-found marker being present or not. *)
Theorem module_marker_prediction :
  forall r : result,
    success r = false ->
    contains "modulenotfounderror" (lower (stderr r)) = true
    \/ contains "no module named" (lower (stderr r)) = true ->
    check_prediction "modulenotfounderror" r = true
    /\ check_prediction "importerror" r
       = (contains "importerror" (lower (stderr r))
          || contains "importerror" (lower (get_error r))).
Proof.
  intros r Hfail Hmark.
  rewrite check_prediction_modulenotfounderror, check_prediction_importerror.
  rewrite Hfail; cbn [negb andb]. split; [|reflexivity].
  apply orb_true_iff; exact Hmark.
Qed.

Lemma module_marker_prediction_witness :
  check_prediction "modulenotfounderror" chained_import_failure = true
  /\ check_prediction "importerror" chained_import_failure
     = (contains "importerror" (lower (stderr chained_import_failure))
        || contains "importerror" (lower (get_error chained_import_failure))).
Proof.
  apply (module_marker_prediction chained_import_failure).
  - reflexivity.
  - left. vm_compute. reflexivity.
Defined.

(** C3. Only the stderr text is searched for the module-not-found
    markers and for the markers that rule out "other"; the harness error
    text is searched for "importerror", "attributeerror" and
    "syntaxerror" alone. On a result with empty stderr whose harness
    error text contains "no module named", the prediction
    "modulenotfounderror" does not match; on one whose harness error
    text contains "importerror", the prediction "other" matches (and so
    does "importerror"). *)
Theorem harness_error_text_not_searched :
  (success spawn_failure_no_module = false
   /\ stderr spawn_failure_no_module = ""
   /\ contains "no module named" (lower (get_error spawn_failure_no_module)) = true
   /\ check_prediction "modulenotfounderror" spawn_failure_no_module = false)
  /\ (success spawn_failure_importerror = false
      /\ stderr spawn_failure_importerror = ""
      /\ contains "importerror" (lower (get_error spawn_failure_importerror)) = true
      /\ check_prediction "importerror" spawn_failure_importerror = true
      /\ check_prediction "other" spawn_failure_importerror = true).
Proof. repeat split; vm_compute; reflexivity. Qed.

(** With an empty stderr the prediction "modulenotfounderror" never
    matches and "other" matches every failed run, whatever the harness
    error text says. *)
Lemma empty_stderr_predictions :
  forall r : result,
    stderr r = "" ->
    check_prediction "modulenotfounderror" r = false
    /\ check_prediction "other" r = negb (success r).
Proof.
  intros r Herr.
  rewrite check_prediction_modulenotfounderror, check_prediction_other, Herr.
  cbn. now rewrite !andb_false_r, andb_true_r.
Qed.

(* ================================================================== *)
(** * Properties of run_test_case *)


Ltac unfold_runner :=
  unfold run_test_case, with_TemporaryDirectory, finally, try_except,
    bind, call, emit, ret, raise, after; cbn [self log].

Ltac tidy_log := cbn [self log]; rewrite <- ?app_assoc; cbn [app].

(** [run_test_case] path by path: what the system answers decides the
    events and the outcome. *)
Lemma run_test_case_unfold (w : world) (test_case_dir : Path) (s : state) :
  run_test_case w test_case_dir s
  = match mkdtemp w with
    | inl e => (s, inl e)
    | inr temp_path =>
        let test_copy := temp_path // name test_case_dir in
        match copytree w test_case_dir test_copy with
        | Some e =>
            (after s [Mkdtemp temp_path; Copytree test_case_dir test_copy;
                      Cleanup temp_path],
             inl e)
        | None =>
            match find_main_file w test_copy main_files with
            | None =>
                (after s [Mkdtemp temp_path; Copytree test_case_dir test_copy;
                          Cleanup temp_path],
                 inr no_main_file_result)
            | Some main_file =>
                let args := [executable w; str_path main_file] in
                let cwd := str_path test_copy in
                (after s [Mkdtemp temp_path; Copytree test_case_dir test_copy;
                          Spawn args cwd 10; Cleanup temp_path],
                 match subprocess_run w args cwd 10 with
                 | inr cp => inr (completed_result cp)
                 | inl TimeoutExpired => inr timeout_result
                 | inl (PyException _ msg) => inr (failed_result msg)
                 | inl (PyBaseException cls) => inl (PyBaseException cls)
                 end)
            end
        end
    end.
Proof.
  unfold_runner.
  destruct (mkdtemp w) as [e | temp_path]; [reflexivity |].
  cbn zeta.
  destruct (copytree w test_case_dir (temp_path // name test_case_dir)) as [e |].
  { tidy_log. reflexivity. }
  destruct (find_main_file w (temp_path // name test_case_dir) main_files)
    as [main_file |].
  2: { tidy_log. reflexivity. }
  destruct (subprocess_run w [executable w; str_path main_file]
              (str_path (temp_path // name test_case_dir)) 10)
    as [[| cls msg | cls] | cp];
    cbn [run_handler]; unfold ret; tidy_log; reflexivity.
Qed.

(** The entry file is the first of the candidates that exists. *)
Lemma find_main_file_first (w : world) (test_copy : Path) :
  forall files f,
    find_main_file w test_copy files = Some f <->
    exists before filename rest,
      files = (before ++ filename :: rest)%list
      /\ f = test_copy // filename
      /\ exists_ w (test_copy // filename) = true
      /\ Forall (fun g => exists_ w (test_copy // g) = false) before.
Proof.
  induction files as [| g files IH]; intro f; cbn [find_main_file].
  - split; [discriminate |].
    intros (before & filename & rest & Heq & _). now destruct before.
  - destruct (exists_ w (test_copy // g)) eqn:Hg.
    + split.
      * intros [= <-]. exists [], g, files. now repeat split.
      * intros (before & filename & rest & Heq & -> & Hex & Hno).
        destruct before as [| g' before]; cbn in Heq; injection Heq as -> Hrest.
        -- reflexivity.
        -- inversion Hno; congruence.
    + rewrite IH. split.
      * intros (before & filename & rest & -> & -> & Hex & Hno).
        exists (g :: before), filename, rest. repeat split; auto.
      * intros (before & filename & rest & Heq & -> & Hex & Hno).
        destruct before as [| g' before]; cbn in Heq; injection Heq as -> Hrest.
        -- congruence.
        -- exists before, filename, rest. inversion Hno; now repeat split.
Qed.

Lemma find_main_file_none (w : world) (test_copy : Path) :
  forall files,
    find_main_file w test_copy files = None <->
    Forall (fun g => exists_ w (test_copy // g) = false) files.
Proof.
  induction files as [| g files IH]; cbn [find_main_file].
  - split; auto.
  - destruct (exists_ w (test_copy // g)) eqn:Hg.
    + split; [discriminate |]. inversion 1; congruence.
    + rewrite IH. split; [auto | now inversion 1].
Qed.


Lemma failed_result_error_nonempty (msg : string) :
  exists text, error (failed_result msg) = Some text /\ text <> "".
Proof. eexists; split; [reflexivity | discriminate]. Qed.




(** C4. When the copied root holds none of main.py, run.py and test.py,
    [run_test_case] launches no child process and returns the result
    with success false, the error text "No main execution file found
    (main.py, run.py, or test.py)", empty output and stderr and no exit
    code. When a candidate exists, the entry file is the first existing
    one in the order main.py, run.py, test.py, and that file is what
    the child is launched on. *)
Theorem no_entry_file_short_circuits :
  forall (w : world) (test_case_dir : Path) (s : state) (temp_path : Path),
    mkdtemp w = inr temp_path ->
    copytree w test_case_dir (temp_path // name test_case_dir) = None ->
    let test_copy := temp_path // name test_case_dir in
    (exists_ w (test_copy // "main.py") = false ->
     exists_ w (test_copy // "run.py") = false ->
     exists_ w (test_copy // "test.py") = false ->
     exists evs,
       run_test_case w test_case_dir s
       = (after s evs,
          inr {| success := false;
                 returncode := None;
                 output := "";
                 stderr := "";
                 error := Some "No main execution file found (main.py, run.py, or test.py)" |})
       /\ forallb (fun ev => negb (is_spawn ev)) evs = true)
    /\ (forall main_file,
           find_main_file w test_copy main_files = Some main_file ->
           (exists before filename rest,
               ["main.py"; "run.py"; "test.py"]
               = (before ++ filename :: rest)%list
               /\ main_file = test_copy // filename
               /\ exists_ w main_file = true
               /\ Forall (fun g => exists_ w (test_copy // g) = false) before)
           /\ exists o,
               run_test_case w test_case_dir s
               = (after s [Mkdtemp temp_path; Copytree test_case_dir test_copy;
                           Spawn [executable w; str_path main_file]
                             (str_path test_copy) 10;
                           Cleanup temp_path],
                  o)).
Proof.
  intros w d s tmp Htemp Hcopy test_copy. subst test_copy. split.
  - intros Hmain Hrun Htest.
    exists [Mkdtemp tmp; Copytree d (tmp // name d); Cleanup tmp].
    split; [| reflexivity].
    rewrite run_test_case_unfold, Htemp. cbn zeta.
    rewrite Hcopy. cbn [find_main_file main_files].
    now rewrite Hmain, Hrun, Htest.
  - intros f Hf. split.
    + apply find_main_file_first in Hf
        as (before & filename & rest & Heq & -> & Hex & Hno).
      exists before, filename, rest. now repeat split.
    + rewrite run_test_case_unfold, Htemp. cbn zeta.
      rewrite Hcopy, Hf. eexists. reflexivity.
Qed.

Lemma no_entry_file_short_circuits_witness :
  exists evs,
    run_test_case world_no_entry fixture fresh
    = (after fresh evs,
       inr {| success := false;
              returncode := None;
              output := "";
              stderr := "";
              error := Some "No main execution file found (main.py, run.py, or test.py)" |})
    /\ forallb (fun ev => negb (is_spawn ev)) evs = true.
Proof.
  apply (proj1 (no_entry_file_short_circuits
                  world_no_entry fixture fresh tmp_dir eq_refl eq_refl));
    reflexivity.
Defined.

(** C6. When the child runs to completion, the success flag of the
    result is true exactly when the exit status is zero; a non-zero
    status gives success false without an error description; the exit
    status and the captured output are recorded and the captured stderr
    is kept as it is. *)
Theorem completed_process_result :
  forall (w : world) (test_case_dir : Path) (s : state) (temp_path : Path)
         (main_file : Path) (cp : CompletedProcess),
    mkdtemp w = inr temp_path ->
    copytree w test_case_dir (temp_path // name test_case_dir) = None ->
    find_main_file w (temp_path // name test_case_dir) main_files
    = Some main_file ->
    subprocess_run w [executable w; str_path main_file]
      (str_path (temp_path // name test_case_dir)) 10 = inr cp ->
    exists s' r,
      run_test_case w test_case_dir s = (s', inr r)
      /\ (success r = true <-> cp_returncode cp = 0)
      /\ (cp_returncode cp <> 0 -> success r = false)
      /\ error r = None
      /\ returncode r = Some (cp_returncode cp)
      /\ output r = cp_stdout cp
      /\ stderr r = cp_stderr cp.
Proof.
  intros w d s tmp f cp Htemp Hcopy Hmain Hrun.
  rewrite run_test_case_unfold, Htemp. cbn zeta. rewrite Hcopy, Hmain, Hrun.
  eexists _, (completed_result cp). split; [reflexivity |].
  cbn [completed_result success error returncode output stderr].
  repeat split; try apply Z.eqb_eq. apply Z.eqb_neq.
Qed.

Lemma completed_process_result_witness :
  exists s' r,
    run_test_case world_completed fixture fresh = (s', inr r)
    /\ (success r = true <-> cp_returncode missing_module_process = 0)
    /\ (cp_returncode missing_module_process <> 0 -> success r = false)
    /\ error r = None
    /\ returncode r = Some (cp_returncode missing_module_process)
    /\ output r = cp_stdout missing_module_process
    /\ stderr r = cp_stderr missing_module_process.
Proof.
  apply (completed_process_result world_completed fixture fresh tmp_dir
           (tmp_dir // name fixture // "main.py") missing_module_process);
    reflexivity.
Defined.

(** C5. The child is launched with a timeout of 10; when
    [subprocess.run] raises [TimeoutExpired] the call returns the result
    with success false and the error text "Test timed out (10 seconds)",
    which differs from the text of every other harness failure: a
    returned result carries that text exactly when [subprocess.run]
    raised [TimeoutExpired]; and a returned result has an exit code
    exactly when the child ran to completion: there is none after a
    timeout, a failed launch or a missing entry file. *)
Theorem timeout_and_exit_code :
  forall (w : world) (test_case_dir : Path) (s : state),
    (forall s' o args cwd timeout,
        run_test_case w test_case_dir s = (s', o) ->
        In (Spawn args cwd timeout) (log s') ->
        In (Spawn args cwd timeout) (log s) \/ timeout = 10)
    /\ (forall temp_path main_file,
           mkdtemp w = inr temp_path ->
           copytree w test_case_dir (temp_path // name test_case_dir) = None ->
           find_main_file w (temp_path // name test_case_dir) main_files
           = Some main_file ->
           subprocess_run w [executable w; str_path main_file]
             (str_path (temp_path // name test_case_dir)) 10
           = inl TimeoutExpired ->
           run_test_case w test_case_dir s
           = (after s [Mkdtemp temp_path;
                       Copytree test_case_dir (temp_path // name test_case_dir);
                       Spawn [executable w; str_path main_file]
                         (str_path (temp_path // name test_case_dir)) 10;
                       Cleanup temp_path],
              inr {| success := false;
                     returncode := None;
                     output := "";
                     stderr := "";
                     error := Some "Test timed out (10 seconds)" |}))
    /\ (error timeout_result <> error no_main_file_result
        /\ forall msg, error timeout_result <> error (failed_result msg))
    /\ (forall s' r,
           run_test_case w test_case_dir s = (s', inr r) ->
           (returncode r <> None <->
            exists temp_path main_file cp,
              mkdtemp w = inr temp_path
              /\ find_main_file w (temp_path // name test_case_dir) main_files
                 = Some main_file
              /\ subprocess_run w [executable w; str_path main_file]
                   (str_path (temp_path // name test_case_dir)) 10 = inr cp
              /\ returncode r = Some (cp_returncode cp)))
    /\ (forall s' r,
           run_test_case w test_case_dir s = (s', inr r) ->
           (error r = Some "Test timed out (10 seconds)" <->
            exists temp_path main_file,
              mkdtemp w = inr temp_path
              /\ find_main_file w (temp_path // name test_case_dir) main_files
                 = Some main_file
              /\ subprocess_run w [executable w; str_path main_file]
                   (str_path (temp_path // name test_case_dir)) 10
                 = inl TimeoutExpired)).
Proof.
  intros w d s. repeat apply conj.
  - intros s' o args cwd timeout. rewrite run_test_case_unfold.
    destruct (mkdtemp w) as [e | tmp].
    { intros [= <- _] Hin. now left. }
    cbn zeta. destruct (copytree w d (tmp // name d)) as [e |].
    { intros [= <- _] Hin. cbn [after log] in Hin.
      apply in_app_or in Hin as [Hin | Hin]; [now left |].
      cbn in Hin. intuition discriminate. }
    destruct (find_main_file w (tmp // name d) main_files) as [f |].
    + intros [= <- _] Hin. cbn [after log] in Hin.
      apply in_app_or in Hin as [Hin | Hin]; [now left | right].
      cbn in Hin. destruct Hin as [H | [H | [H | [H | []]]]];
        try discriminate. now injection H.
    + intros [= <- _] Hin. cbn [after log] in Hin.
      apply in_app_or in Hin as [Hin | Hin]; [now left |].
      cbn in Hin. intuition discriminate.
  - intros tmp f Htemp Hcopy Hmain Hrun.
    rewrite run_test_case_unfold, Htemp. cbn zeta.
    now rewrite Hcopy, Hmain, Hrun.
  - discriminate.
  - intros msg. discriminate.
  - intros s' r. rewrite run_test_case_unfold.
    destruct (mkdtemp w) as [e | tmp]; [discriminate |].
    cbn zeta. destruct (copytree w d (tmp // name d)) as [e |];
      [discriminate |].
    destruct (find_main_file w (tmp // name d) main_files) as [f |] eqn:Hmain.
    + destruct (subprocess_run w [executable w; str_path f]
                  (str_path (tmp // name d)) 10)
        as [[| cls msg | cls] | cp] eqn:Hrun;
        intros [= _ <-]; cbn [returncode timeout_result failed_result completed_result];
        (split;
         [ intros Hsome; try (now contradiction Hsome)
         | intros (tmp' & f' & cp' & [= <-] & Hf' & Hrun' & Hrc) ]);
        try discriminate.
      exists tmp, f, cp. now repeat split.
    + intros [= _ <-]. cbn [returncode no_main_file_result]. split.
      * intros Hsome. now contradiction Hsome.
      * intros (tmp' & f' & cp' & _ & _ & _ & Hrc). discriminate.
  - intros s' r. rewrite run_test_case_unfold.
    destruct (mkdtemp w) as [e | tmp]; [discriminate |].
    cbn zeta. destruct (copytree w d (tmp // name d)) as [e |];
      [discriminate |].
    destruct (find_main_file w (tmp // name d) main_files) as [f |] eqn:Hmain.
    + destruct (subprocess_run w [executable w; str_path f]
                  (str_path (tmp // name d)) 10)
        as [[| cls msg | cls] | cp] eqn:Hrun;
        intros [= _ <-];
        cbn [error timeout_result failed_result completed_result].
      * split; [intros _ | reflexivity]. now exists tmp, f.
      * split; [discriminate |].
        intros (tmp' & f' & [= <-] & Hf' & Hrun').
        rewrite Hmain in Hf'. injection Hf' as <-. congruence.
      * split; [discriminate |].
        intros (tmp' & f' & [= <-] & Hf' & Hrun').
        rewrite Hmain in Hf'. injection Hf' as <-. congruence.
    + intros [= _ <-]. cbn [error no_main_file_result]. split;
        [discriminate |].
      intros (tmp' & f' & [= <-] & Hf' & _). congruence.
Qed.

Lemma timeout_and_exit_code_witness :
  run_test_case world_timeout fixture fresh
  = (after fresh [Mkdtemp tmp_dir;
                  Copytree fixture (tmp_dir // name fixture);
                  Spawn [executable world_timeout;
                         str_path (tmp_dir // name fixture // "run.py")]
                    (str_path (tmp_dir // name fixture)) 10;
                  Cleanup tmp_dir],
     inr {| success := false;
            returncode := None;
            output := "";
            stderr := "";
            error := Some "Test timed out (10 seconds)" |}).
Proof.
  apply (proj1 (proj2 (timeout_and_exit_code world_timeout fixture fresh))
           tmp_dir (tmp_dir // name fixture // "run.py"));
    reflexivity.
Defined.

(* ================================================================== *)
(** * Properties of get_test_cases *)

(** ** The order on strings and on paths *)

Module StrOrder.

Lemma ascii_compare_refl (c : ascii) : Ascii.compare c c = Eq.
Proof. apply N.compare_refl. Qed.

Lemma ascii_lt_trans (a b c : ascii) :
  Ascii.compare a b = Lt -> Ascii.compare b c = Lt -> Ascii.compare a c = Lt.
Proof.
  unfold Ascii.compare. rewrite !N.compare_lt_iff. apply N.lt_trans.
Qed.

Lemma str_compare_refl (a : string) : String.compare a a = Eq.
Proof.
  induction a as [| c a IH]; cbn; [reflexivity |].
  now rewrite ascii_compare_refl.
Qed.

Lemma str_lt_trans :
  forall a b c : string,
    String.compare a b = Lt -> String.compare b c = Lt ->
    String.compare a c = Lt.
Proof.
  induction a as [| x a IH]; intros [| y b] [| z c]; cbn;
    try discriminate; try reflexivity.
  destruct (Ascii.compare x y) eqn:Hxy; try discriminate;
    destruct (Ascii.compare y z) eqn:Hyz; try discriminate; intros Hab Hbc.
  - apply Ascii.compare_eq_iff in Hxy, Hyz. subst.
    rewrite ascii_compare_refl. now apply IH with b.
  - apply Ascii.compare_eq_iff in Hxy. subst. now rewrite Hyz.
  - apply Ascii.compare_eq_iff in Hyz. subst. now rewrite Hxy.
  - now rewrite (ascii_lt_trans x y z).
Qed.

End StrOrder.

Module PathOrder.

Lemma path_compare_refl (p : Path) : path_compare p p = Eq.
Proof.
  induction p as [| a p IH]; cbn; [reflexivity |].
  now rewrite StrOrder.str_compare_refl.
Qed.

Lemma path_compare_antisym :
  forall p q : Path, path_compare p q = CompOpp (path_compare q p).
Proof.
  induction p as [| a p IH]; intros [| b q]; cbn; try reflexivity.
  rewrite String.compare_antisym.
  destruct (String.compare b a); cbn; auto.
Qed.

Lemma path_compare_eq :
  forall p q : Path, path_compare p q = Eq -> p = q.
Proof.
  induction p as [| a p IH]; intros [| b q]; cbn; try discriminate; auto.
  destruct (String.compare a b) eqn:Hab; try discriminate.
  intros Hpq. apply String.compare_eq_iff in Hab. f_equal; auto.
Qed.

Lemma path_lt_trans :
  forall p q r : Path,
    path_compare p q = Lt -> path_compare q r = Lt -> path_compare p r = Lt.
Proof.
  induction p as [| a p IH]; intros [| b q] [| c r]; cbn;
    try discriminate; try reflexivity.
  destruct (String.compare a b) eqn:Hab; try discriminate;
    destruct (String.compare b c) eqn:Hbc; try discriminate; intros Hpq Hqr.
  - apply String.compare_eq_iff in Hab, Hbc. subst.
    rewrite StrOrder.str_compare_refl. now apply IH with q.
  - apply String.compare_eq_iff in Hab. subst. now rewrite Hbc.
  - apply String.compare_eq_iff in Hbc. subst. now rewrite Hab.
  - now rewrite (StrOrder.str_lt_trans a b c).
Qed.

Lemma path_le_trans (p q r : Path) : path_le p q -> path_le q r -> path_le p r.
Proof.
  unfold path_le. intros Hpq Hqr Hgt.
  destruct (path_compare p q) eqn:Epq; [| | congruence].
  - apply path_compare_eq in Epq. now subst.
  - destruct (path_compare q r) eqn:Eqr; [| | congruence].
    + apply path_compare_eq in Eqr. subst. congruence.
    + rewrite (path_lt_trans p q r Epq Eqr) in Hgt. discriminate.
Qed.

Lemma path_le_antisym (p q : Path) : path_le p q -> path_le q p -> p = q.
Proof.
  unfold path_le. rewrite (path_compare_antisym q p).
  destruct (path_compare p q) eqn:Epq; cbn; try congruence.
  intros _ _. now apply path_compare_eq.
Qed.

Lemma path_ltb_false_le (p q : Path) : path_ltb p q = false -> path_le q p.
Proof.
  unfold path_ltb, path_le. rewrite (path_compare_antisym q p).
  destruct (path_compare p q); cbn; congruence.
Qed.

Lemma path_ltb_true_le (p q : Path) : path_ltb p q = true -> path_le p q.
Proof.
  unfold path_ltb, path_le. destruct (path_compare p q); congruence.
Qed.

(** Two entries of one directory are ordered as their names are. *)
Lemma path_compare_siblings (root : Path) (a b : string) :
  path_compare (root ++ [a])%list (root ++ [b])%list = String.compare a b.
Proof.
  induction root as [| c root IH]; cbn.
  - now destruct (String.compare a b).
  - now rewrite StrOrder.str_compare_refl.
Qed.

End PathOrder.

(** ** sorted *)

Section Sorted.

Import PathOrder.

Lemma insert_perm (x : Path) (l : list Path) :
  Permutation (x :: l) (insert x l).
Proof.
  induction l as [| y l IH]; cbn; [reflexivity |].
  destruct (path_ltb y x); [| reflexivity].
  rewrite perm_swap. now constructor.
Qed.

Lemma sorted_perm (l : list Path) : Permutation l (sorted l).
Proof.
  induction l as [| x l IH]; cbn; [constructor |].
  rewrite <- insert_perm. now constructor.
Qed.

Lemma insert_sorted (x : Path) (l : list Path) :
  StronglySorted path_le l -> StronglySorted path_le (insert x l).
Proof.
  induction 1 as [| y l Hl IH Hy]; cbn.
  - repeat constructor.
  - destruct (path_ltb y x) eqn:Hyx.
    + constructor; [assumption |].
      rewrite <- insert_perm. constructor; [now apply path_ltb_true_le | assumption].
    + apply path_ltb_false_le in Hyx.
      constructor; [now constructor |].
      constructor; [assumption |].
      eapply Forall_impl; [| exact Hy].
      intros z Hz. now apply path_le_trans with y.
Qed.

Lemma sorted_sorted (l : list Path) : StronglySorted path_le (sorted l).
Proof.
  induction l as [| x l IH]; cbn; [constructor | now apply insert_sorted].
Qed.

(** A list has one sorted arrangement. *)
Lemma sorted_unique :
  forall l1 l2 : list Path,
    StronglySorted path_le l1 -> StronglySorted path_le l2 ->
    Permutation l1 l2 -> l1 = l2.
Proof.
  induction l1 as [| x l1 IH]; intros l2 H1 H2 Hperm.
  - now apply Permutation_nil in Hperm.
  - destruct l2 as [| y l2].
    { symmetry in Hperm. now apply Permutation_nil in Hperm. }
    inversion H1 as [| ? ? Hs1 Hx]; inversion H2 as [| ? ? Hs2 Hy]; subst.
    assert (x = y) as ->.
    { assert (In x (y :: l2)) as Hinx
          by (eapply Permutation_in; [exact Hperm | now left]).
      assert (In y (x :: l1)) as Hiny
          by (eapply Permutation_in;
              [symmetry; exact Hperm | now left]).
      destruct Hinx as [-> | Hinx]; [reflexivity |].
      destruct Hiny as [-> | Hiny]; [reflexivity |].
      rewrite Forall_forall in Hx, Hy.
      apply path_le_antisym; auto. }
    f_equal. apply IH; auto. now apply Permutation_cons_inv in Hperm.
Qed.

Lemma sorted_of_perm (l1 l2 : list Path) :
  Permutation l1 l2 -> sorted l1 = sorted l2.
Proof.
  intros Hperm. apply sorted_unique; try apply sorted_sorted.
  now rewrite <- !sorted_perm.
Qed.

Lemma sorted_idempotent (l : list Path) : sorted (sorted l) = sorted l.
Proof. apply sorted_of_perm. symmetry. apply sorted_perm. Qed.

End Sorted.

Lemma filter_perm {A} (f : A -> bool) (l1 l2 : list A) :
  Permutation l1 l2 -> Permutation (filter f l1) (filter f l2).
Proof.
  induction 1 as [| x l1 l2 _ IH | x y l | l1 l2 l3 _ IH1 _ IH2]; cbn.
  - constructor.
  - destruct (f x); [now constructor | assumption].
  - destruct (f x), (f y); try reflexivity. apply perm_swap.
  - now transitivity (filter f l2).
Qed.

(** ** The listing *)


Lemma joinpath_file_name (root : Path) (n : string) :
  is_file_name n = true ->
  root // n = (root ++ [n])%list /\ name (root // n) = n.
Proof.
  unfold is_file_name, joinpath. intros Hn.
  apply andb_prop in Hn as [Hne Hsep].
  destruct (n =? "")%string eqn:E; [discriminate |]. split; [reflexivity |].
  destruct root as [| a [| b root]]; cbn [app name].
  - destruct (n =? "/")%string eqn:Hroot; [| reflexivity].
    apply String.eqb_eq in Hroot. subst n. discriminate.
  - reflexivity.
  - apply (last_last (a :: b :: root) n "").
Qed.


Lemma get_test_cases_listing (w : world) (s : state) :
  snd (get_test_cases w s) = listing w (test_cases_dir (self s))
  /\ self (fst (get_test_cases w s)) = self s.
Proof.
  unfold get_test_cases, listing, bind, get_self, call, emit, ret, raise.
  destruct (exists_ w (test_cases_dir (self s))); cbn; [| now split].
  destruct (listdir w (test_cases_dir (self s))); cbn; now split.
Qed.

Lemma StronglySorted_impl_in {A} (R R' : A -> A -> Prop) (l : list A) :
  (forall x y, In x l -> In y l -> R x y -> R' x y) ->
  StronglySorted R l -> StronglySorted R' l.
Proof.
  intros Himpl Hs. induction Hs as [| x l Hs IH Hx]; constructor.
  - apply IH. intros a b Ha Hb. apply Himpl; now right.
  - rewrite Forall_forall in *. intros y Hy.
    apply Himpl; [now left | now right | now apply Hx].
Qed.

(** C7. [get_test_cases] returns, without raising and without touching
    the object, the empty list when the root does not exist; when the
    root exists and its entries are listed, it returns exactly the
    entries [root / n] that are directories and whose name does not
    begin with ".", each as often as it is listed, in ascending order of
    their names. A second call returns what the first returned, and the
    order in which the system lists the entries does not matter. *)
Theorem get_test_cases_spec :
  forall (w : world) (s : state),
    let root := test_cases_dir (self s) in
    (exists_ w root = false ->
     exists s', get_test_cases w s = (s', inr []) /\ self s' = self s)
    /\ (forall names,
           exists_ w root = true ->
           listdir w root = inr names ->
           Forall (fun n => is_file_name n = true) names ->
           exists s' l,
             get_test_cases w s = (s', inr l)
             /\ self s' = self s
             /\ Permutation l
                  (filter (fun d => is_dir w d && negb (startswith (name d) "."))
                     (map (joinpath root) names))
             /\ (forall d,
                    In d l <->
                    exists n, In n names /\ d = root // n
                              /\ is_dir w d = true
                              /\ startswith n "." = false)
             /\ StronglySorted
                  (fun a b => String.leb (name a) (name b) = true) l)
    /\ (forall s1 o1 s2 o2,
           get_test_cases w s = (s1, o1) ->
           get_test_cases w s1 = (s2, o2) ->
           o2 = o1)
    /\ (forall w' names names',
           exists_ w' root = exists_ w root ->
           (forall d, is_dir w' d = is_dir w d) ->
           listdir w root = inr names ->
           listdir w' root = inr names' ->
           Permutation names names' ->
           snd (get_test_cases w' s) = snd (get_test_cases w s)).
Proof.
  intros w s root.
  destruct (get_test_cases_listing w s) as [Hout Hself].
  repeat apply conj.
  - intros Hmissing. exists (fst (get_test_cases w s)).
    split; [| exact Hself].
    rewrite (surjective_pairing (get_test_cases w s)), Hout.
    unfold listing. fold root. now rewrite Hmissing.
  - intros names Hroot Hlist Hnames.
    set (entries := filter (is_test_case w) (map (joinpath root) names)).
    exists (fst (get_test_cases w s)), (sorted entries).
    assert (Hperm : Permutation (sorted entries) entries)
      by (symmetry; apply sorted_perm).
    assert (Hchild : forall d,
               In d (sorted entries) ->
               exists n, In n names /\ d = (root ++ [n])%list /\ name d = n
                         /\ d = root // n /\ is_test_case w d = true).
    { intros d Hd. apply (Permutation_in _ Hperm) in Hd.
      apply filter_In in Hd as [Hd Hok].
      apply in_map_iff in Hd as (n & <- & Hn).
      rewrite Forall_forall in Hnames.
      destruct (joinpath_file_name root n (Hnames n Hn)) as [Heq Hname].
      exists n. now rewrite <- Heq. }
    repeat apply conj.
    + rewrite (surjective_pairing (get_test_cases w s)), Hout.
      unfold listing. fold root. now rewrite Hroot, Hlist.
    + exact Hself.
    + exact Hperm.
    + intros d. split.
      * intros Hd. destruct (Hchild d Hd) as (n & Hn & _ & Hname & Heq & Hok).
        exists n. unfold is_test_case in Hok. rewrite Hname in Hok.
        apply andb_prop in Hok as [Hdir Hdot].
        repeat split; auto. now destruct (startswith n ".").
      * intros (n & Hn & -> & Hdir & Hdot).
        apply (Permutation_in _ (Permutation_sym Hperm)).
        apply filter_In. split; [now apply in_map |].
        rewrite Forall_forall in Hnames.
        destruct (joinpath_file_name root n (Hnames n Hn)) as [_ Hname].
        unfold is_test_case. now rewrite Hname, Hdir, Hdot.
    + apply StronglySorted_impl_in with (R := path_le);
        [| apply sorted_sorted].
      intros a b Ha Hb Hle.
      destruct (Hchild a Ha) as (na & _ & -> & Hna & _).
      destruct (Hchild b Hb) as (nb & _ & -> & Hnb & _).
      rewrite Hna, Hnb. unfold path_le in Hle.
      rewrite PathOrder.path_compare_siblings in Hle.
      unfold String.leb. now destruct (String.compare na nb).
  - intros s1 o1 s2 o2 H1 H2.
    destruct (get_test_cases_listing w s1) as [Hout1 Hself1].
    rewrite H2 in Hout1. rewrite H1 in Hout, Hself. cbn in *.
    now rewrite Hout, Hout1, Hself.
  - intros w' names names' Hex Hdir Hl Hl' Hperm.
    destruct (get_test_cases_listing w' s) as [Hout' _].
    rewrite Hout, Hout'. unfold listing. fold root.
    rewrite Hex, Hl, Hl'. destruct (exists_ w root); [| reflexivity].
    f_equal. apply sorted_of_perm.
    rewrite (filter_ext (is_test_case w') (is_test_case w))
      by (intros d; unfold is_test_case; now rewrite Hdir).
    apply filter_perm. symmetry. now apply Permutation_map.
Qed.

Lemma get_test_cases_spec_witness :
  exists s' l,
    get_test_cases world_completed fresh = (s', inr l)
    /\ self s' = self fresh
    /\ Permutation l
         (filter (fun d => is_dir world_completed d
                           && negb (startswith (name d) "."))
            (map (joinpath ["test_cases"]) sample_names))
    /\ (forall d,
           In d l <->
           exists n, In n sample_names /\ d = ["test_cases"] // n
                     /\ is_dir world_completed d = true
                     /\ startswith n "." = false)
    /\ StronglySorted (fun a b => String.leb (name a) (name b) = true) l.
Proof.
  apply (proj1 (proj2 (get_test_cases_spec world_completed fresh))
           sample_names);
    [reflexivity | reflexivity | repeat constructor].
Defined.

Example get_test_cases_sample :
  snd (get_test_cases world_completed fresh)
  = inr [["test_cases"; "01_basic"]; ["test_cases"; "02_pkg"]].
Proof. reflexivity. Qed.

(* ================================================================== *)
(** * Properties of the score *)




Lemma score_round_spec (prediction : string) (r : result) (s : state) :
  score_round prediction r s
  = ({| self := scored prediction r (self s); log := log s |},
     inr (check_prediction prediction r)).
Proof.
  unfold score_round, scored, bind, get_self, set_self, ret.
  destruct (prediction =? "skip")%string; cbn.
  - now destruct s.
  - destruct (check_prediction prediction r); cbn; do 2 f_equal;
      f_equal; lia.
Qed.

Lemma scored_ok (prediction : string) (r : result) (q : PackagingQuiz) :
  score_ok q -> score_ok (scored prediction r q) /\ grows q (scored prediction r q).
Proof.
  unfold score_ok, grows, scored. intros Hq.
  destruct (prediction =? "skip")%string; cbn; [lia |].
  destruct (check_prediction prediction r); lia.
Qed.

Lemma run_test_case_self (w : world) (d : Path) (s : state) :
  self (fst (run_test_case w d s)) = self s.
Proof.
  rewrite run_test_case_unfold.
  destruct (mkdtemp w); [reflexivity |]. cbn zeta.
  destruct (copytree w d _); [reflexivity |].
  now destruct (find_main_file w _ main_files).
Qed.

(** One turn: the counters are those of the scored prediction when the
    prediction was made and the fixture ran, and are left alone when the
    turn was cut short. *)
Lemma quiz_round_self (w : world) (test_case : Path) (t : turn) (s : state) :
  self (fst (quiz_round w test_case t s))
  = match ask t, snd (run_test_case w test_case s) with
    | inr prediction, inr r => scored prediction r (self s)
    | _, _ => self s
    end.
Proof.
  unfold quiz_round, bind, call.
  destruct (ask t) as [e | prediction]; [reflexivity |]. cbn.
  pose proof (run_test_case_self w test_case s) as Hself.
  destruct (run_test_case w test_case s) as [s1 [e | r]]; cbn in *;
    [assumption |].
  rewrite score_round_spec. cbn. rewrite Hself.
  now destruct (ack t).
Qed.

Lemma quiz_round_ok (w : world) (test_case : Path) (t : turn) (s : state) :
  score_ok (self s) ->
  score_ok (self (fst (quiz_round w test_case t s)))
  /\ grows (self s) (self (fst (quiz_round w test_case t s))).
Proof.
  intros Hs. rewrite quiz_round_self.
  destruct (ask t) as [e | prediction];
    [unfold grows; split; [assumption | lia] |].
  destruct (snd (run_test_case w test_case s)) as [e | r];
    [unfold grows; split; [assumption | lia] |].
  now apply scored_ok.
Qed.

Lemma quiz_loop_ok (w : world) (console : nat -> turn) :
  forall test_cases i s,
    score_ok (self s) ->
    score_ok (self (fst (quiz_loop w console i test_cases s)))
    /\ grows (self s) (self (fst (quiz_loop w console i test_cases s))).
Proof.
  induction test_cases as [| test_case rest IH]; intros i s Hs; cbn.
  - unfold grows. split; [assumption | lia].
  - unfold bind.
    destruct (quiz_round_ok w test_case (console i) s Hs) as [Hok Hgrow].
    destruct (quiz_round w test_case (console i) s) as [s1 [e | []]];
      cbn in *; [now split |].
    destruct (IH (S i) s1 Hok) as [Hok' Hgrow'].
    split; [assumption |]. unfold grows in *. lia.
Qed.

(** ** display_final_score *)

Lemma py_truediv_defined (a b : Z) :
  b <> 0 -> py_truediv a b = inr (float_of_int a / float_of_int b)%float.
Proof.
  intros Hb. unfold py_truediv. now destruct (Z.eqb_spec b 0).
Qed.




Lemma display_final_score_unfold (s : state) :
  display_final_score s
  = (after s
       (banner ++
        (if total_questions (self s) >? 0 then
           [PrintScore (score (self s)) (total_questions (self s))
              (percentage_of (self s));
            Print (if (90 <=? percentage_of (self s))%float then msg_excellent
                   else if (70 <=? percentage_of (self s))%float then msg_good
                   else if (50 <=? percentage_of (self s))%float then msg_not_bad
                   else msg_keep_practicing)]
         else [Print msg_no_questions]) ++
        [farewell]),
     inr tt).
Proof.
  unfold display_final_score, bind, emit, get_self, call, ret, raise, after.
  cbn [self log].
  destruct (Z.gtb_spec (total_questions (self s)) 0) as [Hpos | Hzero].
  - rewrite py_truediv_defined by lia. fold (percentage_of (self s)).
    cbn [self log].
    destruct (90 <=? percentage_of (self s))%float;
      [| destruct (70 <=? percentage_of (self s))%float;
         [| destruct (50 <=? percentage_of (self s))%float]];
      cbn [self log]; rewrite <- ?app_assoc; reflexivity.
  - cbn [self log]. rewrite <- ?app_assoc. reflexivity.
Qed.


(** C9. [display_final_score] never raises: the quotient
    score / total_questions is formed only when total_questions is
    positive, where the division is defined. With no question answered
    it prints "No questions were answered." and no score line; otherwise
    it prints the score line with the percentage (score /
    total_questions) * 100 and the message chosen by percentage >= 90,
    then >= 70, then >= 50, else the last one. *)
Theorem display_final_score_spec :
  forall s : state,
    let q := self s in
    (exists s', display_final_score s = (s', inr tt) /\ self s' = q)
    /\ (total_questions q <= 0 ->
        display_final_score s
        = (after s (banner ++ [Print "No questions were answered."; farewell]),
           inr tt)
        /\ forallb (fun ev => negb (is_score_line ev))
             (banner ++ [Print "No questions were answered."; farewell])
           = true)
    /\ (total_questions q > 0 ->
        exists ratio message,
          py_truediv (score q) (total_questions q) = inr ratio
          /\ let percentage := (ratio * 100)%float in
             display_final_score s
             = (after s (banner ++
                         [PrintScore (score q) (total_questions q) percentage;
                          Print message; farewell]),
                inr tt)
             /\ ((90 <=? percentage)%float = true -> message = msg_excellent)
             /\ ((90 <=? percentage)%float = false ->
                 (70 <=? percentage)%float = true -> message = msg_good)
             /\ ((90 <=? percentage)%float = false ->
                 (70 <=? percentage)%float = false ->
                 (50 <=? percentage)%float = true -> message = msg_not_bad)
             /\ ((90 <=? percentage)%float = false ->
                 (70 <=? percentage)%float = false ->
                 (50 <=? percentage)%float = false ->
                 message = msg_keep_practicing)).
Proof.
  intros s q. split; [| split].
  - rewrite display_final_score_unfold. eexists. split; reflexivity.
  - intros Hzero. split; [| reflexivity].
    rewrite display_final_score_unfold. fold q.
    destruct (Z.gtb_spec (total_questions q) 0); [lia | reflexivity].
  - intros Hpos. rewrite display_final_score_unfold. fold q.
    destruct (Z.gtb_spec (total_questions q) 0); [| lia].
    exists (float_of_int (score q) / float_of_int (total_questions q))%float.
    eexists. split; [apply py_truediv_defined; lia |].
    cbn zeta. fold (percentage_of q). split; [reflexivity |].
    destruct (90 <=? percentage_of q)%float;
      destruct (70 <=? percentage_of q)%float;
      destruct (50 <=? percentage_of q)%float;
      repeat split; intros; try reflexivity; discriminate.
Qed.

Lemma display_final_score_spec_witness :
  display_final_score (played 0 0)
  = (after (played 0 0)
       (banner ++ [Print "No questions were answered."; farewell]),
     inr tt)
  /\ forallb (fun ev => negb (is_score_line ev))
       (banner ++ [Print "No questions were answered."; farewell])
     = true.
Proof.
  apply (proj1 (proj2 (display_final_score_spec (played 0 0)))).
  cbn. lia.
Defined.

(** Seven right answers out of ten are 70 percent on the nose, and earn
    the second message. *)
Example display_final_score_seven_of_ten :
  display_final_score (played 7 10)
  = (after (played 7 10)
       (banner ++ [PrintScore 7 10 70%float; Print msg_good; farewell]),
     inr tt).
Proof. vm_compute. reflexivity. Qed.

Example display_final_score_nine_of_ten :
  display_final_score (played 9 10)
  = (after (played 9 10)
       (banner ++ [PrintScore 9 10 90%float; Print msg_excellent; farewell]),
     inr tt).
Proof. vm_compute. reflexivity. Qed.

Lemma display_final_score_self (s : state) :
  self (fst (display_final_score s)) = self s.
Proof. now rewrite display_final_score_unfold. Qed.

(** ** The loop of run_quiz *)

Lemma run_quiz_ok (w : world) (console : nat -> turn) (s : state) :
  score_ok (self s) ->
  score_ok (self (fst (run_quiz w console s)))
  /\ grows (self s) (self (fst (run_quiz w console s))).
Proof.
  intros Hs. unfold run_quiz, bind.
  destruct (get_test_cases_listing w s) as [_ Hself].
  destruct (get_test_cases w s) as [s1 [e | test_cases]];
    cbn [fst snd] in Hself; rewrite <- Hself in *; clear Hself.
  - unfold grows. cbn [fst]. split; [assumption | lia].
  - destruct test_cases as [| test_case rest].
    + unfold grows, emit. cbn [fst self]. split; [assumption | lia].
    + destruct (quiz_loop_ok w console (test_case :: rest) 1%nat s1 Hs)
        as [Hok Hgrow].
      destruct (quiz_loop w console 1 (test_case :: rest) s1)
        as [s2 [e | []]]; cbn [fst snd] in Hok, Hgrow |- *; [now split |].
      rewrite display_final_score_self. now split.
Qed.

(** C10. The counters start at zero. After every turn of the loop, and
    after the loop and the whole of [run_quiz], 0 <= score <=
    total_questions, and neither counter has gone down. A turn with
    prediction "skip" leaves both counters as they were; a turn with
    another prediction whose fixture ran adds exactly 1 to
    total_questions and adds 1 to score exactly when the prediction
    matched the result. *)
Theorem score_state_invariant :
  forall (w : world) (console : nat -> turn),
    (forall dir, score (init dir) = 0 /\ total_questions (init dir) = 0)
    /\ (forall test_case t s,
           0 <= score (self s) <= total_questions (self s) ->
           let q' := self (fst (quiz_round w test_case t s)) in
           0 <= score q' <= total_questions q'
           /\ score (self s) <= score q'
           /\ total_questions (self s) <= total_questions q')
    /\ (forall test_case t s,
           ask t = inr "skip" ->
           self (fst (quiz_round w test_case t s)) = self s)
    /\ (forall test_case t s prediction s1 r,
           ask t = inr prediction ->
           prediction <> "skip" ->
           run_test_case w test_case s = (s1, inr r) ->
           let q' := self (fst (quiz_round w test_case t s)) in
           total_questions q' = total_questions (self s) + 1
           /\ score q'
              = score (self s)
                + (if check_prediction prediction r then 1 else 0))
    /\ (forall test_cases i s,
           0 <= score (self s) <= total_questions (self s) ->
           let q' := self (fst (quiz_loop w console i test_cases s)) in
           0 <= score q' <= total_questions q'
           /\ score (self s) <= score q'
           /\ total_questions (self s) <= total_questions q')
    /\ (forall dir events,
           let q' := self (fst (run_quiz w console
                                  {| self := init dir; log := events |})) in
           0 <= score q' <= total_questions q').
Proof.
  intros w console.
  split; [intros dir; split; reflexivity |].
  split; [intros test_case t s Hs; apply (quiz_round_ok w test_case t s Hs) |].
  split.
  { intros test_case t s Hask. rewrite quiz_round_self, Hask.
    now destruct (snd (run_test_case w test_case s)). }
  split.
  { intros test_case t s prediction s1 r Hask Hskip Hrun.
    cbn zeta. rewrite quiz_round_self, Hask, Hrun. cbn [snd]. unfold scored.
    destruct (String.eqb_spec prediction "skip"); [contradiction |].
    now split. }
  split.
  { intros test_cases i s Hs.
    apply (quiz_loop_ok w console test_cases i s Hs). }
  intros dir events.
  apply (run_quiz_ok w console {| self := init dir; log := events |}).
  unfold score_ok. cbn. lia.
Qed.

Lemma score_state_invariant_witness :
  let q' := self (fst (quiz_round world_completed fixture (sample_console 1)
                         fresh)) in
  total_questions q' = total_questions (self fresh) + 1
  /\ score q'
     = score (self fresh)
       + (if check_prediction "modulenotfounderror"
               (completed_result missing_module_process)
          then 1 else 0).
Proof.
  refine (proj1 (proj2 (proj2 (proj2
            (score_state_invariant world_completed sample_console))))
            fixture (sample_console 1) fresh "modulenotfounderror"
            _ (completed_result missing_module_process) eq_refl _ eq_refl).
  discriminate.
Defined.

(** The sample quiz: the first prediction is right, the second fixture
    is skipped. *)
Example run_quiz_sample :
  self (fst (run_quiz world_completed sample_console fresh))
  = {| test_cases_dir := ["test_cases"]; score := 1; total_questions := 1 |}.
Proof. vm_compute. reflexivity. Qed.

(* ================================================================== *)
(** * Further properties of check_prediction *)

(** The six predictions of the menu. *)
Definition menu_tokens : list string :=
  ["success"; "importerror"; "modulenotfounderror"; "attributeerror";
   "syntaxerror"; "other"].

(** [check_prediction] branch by branch. *)
Lemma check_prediction_cases (p : string) (r : result) :
  check_prediction p r = true ->
  (p = "success" /\ success r = true)
  \/ (success r = false
      /\ (p = "importerror" \/ p = "modulenotfounderror"
          \/ p = "attributeerror" \/ p = "syntaxerror" \/ p = "other")).
Proof.
  unfold check_prediction.
  destruct (String.eqb_spec p "skip"); [discriminate |].
  destruct (String.eqb_spec p "success"); [now left |].
  assert (forall b, negb (success r) && b = true -> success r = false) as Hneg
      by (intros b; now destruct (success r)).
  destruct (String.eqb_spec p "importerror"); [right; eauto |].
  destruct (String.eqb_spec p "modulenotfounderror"); [right; eauto 6 |].
  destruct (String.eqb_spec p "attributeerror"); [right; eauto 6 |].
  destruct (String.eqb_spec p "syntaxerror"); [right; eauto 7 |].
  destruct (String.eqb_spec p "other"); [right; eauto 8 |].
  discriminate.
Qed.

(** X1. For a run that succeeded, the one prediction that matches is
    "success": every error prediction, "other", "skip" and any other
    text are wrong. *)
Theorem successful_run_only_success_matches :
  forall (p : string) (r : result),
    success r = true ->
    (check_prediction p r = true <-> p = "success").
Proof.
  intros p r Hok. split.
  - intros Hp. apply check_prediction_cases in Hp as [[-> _] | [Hfail _]];
      [reflexivity | congruence].
  - intros ->. exact Hok.
Qed.

Lemma successful_run_only_success_matches_witness :
  check_prediction "other" (completed_result (mkCompleted 0 "hello" ""))
  = true
  <-> "other" = "success".
Proof.
  apply (successful_run_only_success_matches "other"
           (completed_result (mkCompleted 0 "hello" ""))).
  reflexivity.
Defined.

Lemma check_prediction_attributeerror (r : result) :
  check_prediction "attributeerror" r
  = negb (success r)
    && (contains "attributeerror" (lower (stderr r))
        || contains "attributeerror" (lower (get_error r))).
Proof. reflexivity. Qed.

Lemma check_prediction_syntaxerror (r : result) :
  check_prediction "syntaxerror" r
  = negb (success r)
    && (contains "syntaxerror" (lower (stderr r))
        || contains "syntaxerror" (lower (get_error r))).
Proof. reflexivity. Qed.

(** A failed run without any marker: only "other" matches. *)
Lemma check_prediction_unmarked :
  forall (p : string) (r : result),
    success r = false ->
    any_in ["importerror"; "modulenotfounderror"; "no module named";
            "attributeerror"; "syntaxerror"] (lower (stderr r)) = false ->
    any_in ["importerror"; "attributeerror"; "syntaxerror"]
      (lower (get_error r)) = false ->
    (check_prediction p r = true <-> p = "other").
Proof.
  intros p r Hfail Herr Hharness.
  cbn [any_in existsb] in Herr, Hharness.
  rewrite !orb_false_iff in Herr. rewrite !orb_false_iff in Hharness.
  destruct Herr as (Hi & Hm & Hn & Ha & Hs & _).
  destruct Hharness as (Hi' & Ha' & Hs' & _).
  split.
  - intros Hp. pose proof Hp as Hcase.
    apply check_prediction_cases in Hcase
      as [[_ Hok] | [_ [-> | [-> | [-> | [-> | ->]]]]]];
      [congruence | exfalso .. | reflexivity].
    + rewrite check_prediction_importerror, Hi, Hi', andb_false_r in Hp.
      discriminate.
    + rewrite check_prediction_modulenotfounderror, Hm, Hn, andb_false_r in Hp.
      discriminate.
    + rewrite check_prediction_attributeerror, Ha, Ha', andb_false_r in Hp.
      discriminate.
    + rewrite check_prediction_syntaxerror, Hs, Hs', andb_false_r in Hp.
      discriminate.
  - intros ->. rewrite check_prediction_other, Hfail, Hi, Hm, Ha, Hs.
    reflexivity.
Qed.

(** X2. For a failed run whose lower-cased stderr holds none of
    "importerror", "modulenotfounderror", "no module named",
    "attributeerror", "syntaxerror" and whose lower-cased harness error
    text holds none of "importerror", "attributeerror", "syntaxerror",
    the one prediction that matches is "other". *)
Theorem unmarked_failure_only_other_matches :
  forall (p : string) (r : result),
    success r = false ->
    any_in ["importerror"; "modulenotfounderror"; "no module named";
            "attributeerror"; "syntaxerror"] (lower (stderr r)) = false ->
    any_in ["importerror"; "attributeerror"; "syntaxerror"]
      (lower (get_error r)) = false ->
    (check_prediction p r = true <-> p = "other").
Proof. exact check_prediction_unmarked. Qed.

Lemma unmarked_failure_only_other_matches_witness :
  check_prediction "syntaxerror" timeout_result = true
  <-> "syntaxerror" = "other".
Proof.
  apply (unmarked_failure_only_other_matches "syntaxerror" timeout_result);
    reflexivity.
Defined.

(** X3. Whatever the result, a prediction that matches is one of the
    six tokens of the menu: "skip" and any other text never score. *)
Theorem only_menu_tokens_match :
  forall (p : string) (r : result),
    check_prediction p r = true -> In p menu_tokens.
Proof.
  intros p r Hp. unfold menu_tokens.
  apply check_prediction_cases in Hp
    as [[-> _] | [_ [-> | [-> | [-> | [-> | ->]]]]]]; cbn; auto 8.
Qed.

Lemma only_menu_tokens_match_witness :
  In "modulenotfounderror" menu_tokens.
Proof.
  apply (only_menu_tokens_match "modulenotfounderror" chained_import_failure).
  reflexivity.
Defined.

(** ** Substrings and lower case *)

Lemma prefix_iff (p s : string) :
  String.prefix p s = true <-> exists post, s = p ++ post.
Proof.
  revert s. induction p as [| c p IH]; intros s.
  - split; [intros _; now exists s | intros _; now destruct s].
  - destruct s as [| d s]; cbn.
    + split; [discriminate | intros [post Hpost]; discriminate].
    + destruct (ascii_dec c d) as [<- | Hcd].
      * rewrite IH. split; intros [post Hpost]; exists post;
          [now rewrite Hpost | now injection Hpost].
      * split; [discriminate | intros [post Hpost]; congruence].
Qed.

(** [needle in hay] holds exactly when [hay] is some text, [needle], some
    text. *)
Lemma contains_iff (needle hay : string) :
  contains needle hay = true <-> exists pre post, hay = pre ++ needle ++ post.
Proof.
  induction hay as [| c hay IH]; cbn [contains].
  - destruct (String.prefix needle "") eqn:Hp.
    + split; [intros _ | reflexivity].
      apply prefix_iff in Hp as [post Hpost]. now exists "", post.
    + split; [discriminate |]. intros (pre & post & Heq).
      destruct pre; [| discriminate]. cbn in Heq.
      assert (String.prefix needle "" = true) as Hp'
          by (apply prefix_iff; now exists post).
      congruence.
  - destruct (String.prefix needle (String c hay)) eqn:Hp.
    + split; [intros _ | reflexivity].
      apply prefix_iff in Hp as [post Hpost]. now exists "", post.
    + rewrite IH. split.
      * intros (pre & post & ->). now exists (String c pre), post.
      * intros (pre & post & Heq). destruct pre as [| d pre].
        -- cbn in Heq.
           assert (String.prefix needle (String c hay) = true) as Hp'
               by (apply prefix_iff; now exists post).
           congruence.
        -- injection Heq as _ ->. now exists pre, post.
Qed.

Lemma lower_app (a b : string) : lower (a ++ b) = lower a ++ lower b.
Proof. induction a as [| c a IH]; cbn; [reflexivity | now rewrite IH]. Qed.

Lemma lower_ascii_idempotent (c : ascii) :
  lower_ascii (lower_ascii c) = lower_ascii c.
Proof.
  destruct c as [[] [] [] [] [] [] [] []]; reflexivity.
Qed.

Lemma lower_idempotent (s : string) : lower (lower s) = lower s.
Proof.
  induction s as [| c s IH]; cbn; [reflexivity |].
  now rewrite lower_ascii_idempotent, IH.
Qed.

(** X4. A failed run whose stderr holds, anywhere and in any mix of
    upper and lower case, the name ImportError, ModuleNotFoundError,
    AttributeError or SyntaxError matches the prediction of that name
    and does not match "other". *)
Theorem error_name_anywhere_in_stderr :
  forall (r : result) (pre marker post p : string),
    In p ["importerror"; "modulenotfounderror"; "attributeerror";
          "syntaxerror"] ->
    lower marker = p ->
    success r = false ->
    stderr r = pre ++ marker ++ post ->
    check_prediction p r = true /\ check_prediction "other" r = false.
Proof.
  intros r pre marker post p Hin Hlow Hfail Herr.
  assert (contains p (lower (stderr r)) = true) as Hfound.
  { apply contains_iff. exists (lower pre), (lower post).
    now rewrite Herr, !lower_app, Hlow. }
  rewrite check_prediction_other, Hfail. cbn [negb andb].
  destruct Hin as [<- | [<- | [<- | [<- | []]]]].
  - rewrite check_prediction_importerror, Hfail, Hfound. now split.
  - rewrite check_prediction_modulenotfounderror, Hfail, Hfound.
    split; [reflexivity |]. now rewrite orb_true_r.
  - rewrite check_prediction_attributeerror, Hfail, Hfound.
    split; [reflexivity |]. now rewrite !orb_true_r.
  - rewrite check_prediction_syntaxerror, Hfail, Hfound.
    split; [reflexivity |]. now rewrite !orb_true_r.
Qed.

Lemma error_name_anywhere_in_stderr_witness :
  check_prediction "attributeerror"
    (completed_result (mkCompleted 1 "" "Traceback: AttributeError: no x"))
  = true
  /\ check_prediction "other"
       (completed_result (mkCompleted 1 "" "Traceback: AttributeError: no x"))
     = false.
Proof.
  apply (error_name_anywhere_in_stderr
           (completed_result (mkCompleted 1 "" "Traceback: AttributeError: no x"))
           "Traceback: " "AttributeError" ": no x" "attributeerror");
    [cbn; auto | reflexivity | reflexivity | reflexivity].
Defined.

(* ================================================================== *)
(** * Further properties of run_test_case *)

(** X5. On every way out of [run_test_case], a return or an exception,
    the object is untouched and the temporary directory that was made is
    removed: either no directory could be made, that exception is raised
    and nothing happened, or the events of the call are the making of
    the directory, then events that make or remove no directory and
    launch at most one child, then the removal of that same directory. *)
Theorem temporary_directory_always_removed :
  forall (w : world) (test_case_dir : Path) (s s' : state)
         (o : exn + result),
    run_test_case w test_case_dir s = (s', o) ->
    self s' = self s
    /\ ((exists e, mkdtemp w = inl e /\ o = inl e /\ log s' = log s)
        \/ (exists temp_path inside,
               mkdtemp w = inr temp_path
               /\ log s' = (log s ++ [Mkdtemp temp_path] ++ inside
                                 ++ [Cleanup temp_path])%list
               /\ forallb (fun ev => negb (is_tempdir_event ev)) inside = true
               /\ (count_events is_spawn inside <= 1)%nat)).
Proof.
  intros w d s s' o. rewrite run_test_case_unfold.
  destruct (mkdtemp w) as [e | tmp].
  { intros [= <- <-]. split; [reflexivity |]. left. now exists e. }
  cbn zeta. destruct (copytree w d (tmp // name d)) as [e |].
  { intros [= <- <-]. split; [reflexivity |]. right.
    exists tmp, [Copytree d (tmp // name d)]. cbn. auto. }
  destruct (find_main_file w (tmp // name d) main_files) as [f |];
    intros [= <- <-]; (split; [reflexivity |]); right.
  - exists tmp, [Copytree d (tmp // name d);
                 Spawn [executable w; str_path f] (str_path (tmp // name d)) 10].
    cbn. auto.
  - exists tmp, [Copytree d (tmp // name d)]. cbn. auto.
Qed.

Lemma temporary_directory_always_removed_witness :
  self (fst (run_test_case world_interrupted fixture fresh)) = self fresh
  /\ ((exists e, mkdtemp world_interrupted = inl e
                 /\ snd (run_test_case world_interrupted fixture fresh) = inl e
                 /\ log (fst (run_test_case world_interrupted fixture fresh))
                    = log fresh)
      \/ (exists temp_path inside,
             mkdtemp world_interrupted = inr temp_path
             /\ log (fst (run_test_case world_interrupted fixture fresh))
                = (log fresh ++ [Mkdtemp temp_path] ++ inside
                             ++ [Cleanup temp_path])%list
             /\ forallb (fun ev => negb (is_tempdir_event ev)) inside = true
             /\ (count_events is_spawn inside <= 1)%nat)).
Proof.
  apply (temporary_directory_always_removed world_interrupted fixture fresh).
  apply surjective_pairing.
Defined.

(** X6. Every result [run_test_case] returns has one of two shapes:
    the child ran to completion (an exit code, no error description, the
    success flag saying whether the code is zero), or the harness failed
    (an error description, no exit code, success false, empty output and
    stderr). In particular success is true only when a child exited with
    status zero. *)
Theorem returned_result_shape :
  forall (w : world) (test_case_dir : Path) (s s' : state) (r : result),
    run_test_case w test_case_dir s = (s', inr r) ->
    (exists code,
        returncode r = Some code /\ error r = None
        /\ success r = (code =? 0))
    \/ (exists text,
           error r = Some text /\ text <> "" /\ returncode r = None
           /\ success r = false /\ output r = "" /\ stderr r = "").
Proof.
  intros w d s s' r. rewrite run_test_case_unfold.
  destruct (mkdtemp w) as [e | tmp]; [discriminate |].
  cbn zeta. destruct (copytree w d (tmp // name d)) as [e |];
    [discriminate |].
  destruct (find_main_file w (tmp // name d) main_files) as [f |].
  - destruct (subprocess_run w _ _ 10) as [[| cls msg | cls] | cp];
      intros [= _ <-].
    + right. eexists. repeat split. discriminate.
    + right. eexists. repeat split. discriminate.
    + left. exists (cp_returncode cp). now repeat split.
  - intros [= _ <-]. right. eexists. repeat split. discriminate.
Qed.

Lemma returned_result_shape_witness :
  (exists code,
      returncode (completed_result missing_module_process) = Some code
      /\ error (completed_result missing_module_process) = None
      /\ success (completed_result missing_module_process) = (code =? 0))
  \/ (exists text,
         error (completed_result missing_module_process) = Some text
         /\ text <> ""
         /\ returncode (completed_result missing_module_process) = None
         /\ success (completed_result missing_module_process) = false
         /\ output (completed_result missing_module_process) = ""
         /\ stderr (completed_result missing_module_process) = "").
Proof.
  apply (returned_result_shape world_completed fixture fresh
           (fst (run_test_case world_completed fixture fresh))).
  reflexivity.
Defined.

(** X7. When the copy holds no entry file, or the child times out, the
    harness error that comes back carries no error name: whatever the
    user predicted, the prediction scores exactly when it was "other". *)
Theorem harness_failure_scores_other :
  forall (w : world) (test_case_dir : Path) (s : state) (temp_path : Path),
    mkdtemp w = inr temp_path ->
    copytree w test_case_dir (temp_path // name test_case_dir) = None ->
    find_main_file w (temp_path // name test_case_dir) main_files = None
    \/ (exists main_file,
           find_main_file w (temp_path // name test_case_dir) main_files
           = Some main_file
           /\ subprocess_run w [executable w; str_path main_file]
                (str_path (temp_path // name test_case_dir)) 10
              = inl TimeoutExpired) ->
    exists s' r,
      run_test_case w test_case_dir s = (s', inr r)
      /\ forall p, check_prediction p r = true <-> p = "other".
Proof.
  intros w d s tmp Htemp Hcopy Hcase.
  rewrite run_test_case_unfold, Htemp. cbn zeta. rewrite Hcopy.
  destruct Hcase as [-> | (f & -> & ->)]; eexists _, _;
    (split; [reflexivity |]); intros p;
    apply check_prediction_unmarked; reflexivity.
Qed.

Lemma harness_failure_scores_other_witness :
  exists s' r,
    run_test_case world_no_entry fixture fresh = (s', inr r)
    /\ forall p, check_prediction p r = true <-> p = "other".
Proof.
  apply (harness_failure_scores_other world_no_entry fixture fresh tmp_dir);
    [reflexivity | reflexivity | left; reflexivity].
Defined.

(* ================================================================== *)
(** * Further properties of the loop of run_quiz *)

Lemma count_events_app (f : event -> bool) (a b : list event) :
  count_events f (a ++ b) = (count_events f a + count_events f b)%nat.
Proof. unfold count_events. now rewrite filter_app, length_app. Qed.

(** One turn runs its fixture at most once, launches at most one child,
    and counts a question only when the fixture was run. *)
Lemma quiz_round_events (w : world) (test_case : Path) (t : turn)
  (s s' : state) (o : exn + unit) :
  quiz_round w test_case t s = (s', o) ->
  exists added,
    log s' = (log s ++ added)%list
    /\ (count_events is_mkdtemp added <= 1)%nat
    /\ (count_events is_spawn added <= count_events is_mkdtemp added)%nat
    /\ total_questions (self s) <= total_questions (self s')
       <= total_questions (self s) + Z.of_nat (count_events is_mkdtemp added)
    /\ forallb (fun ev => negb (is_score_line ev)) added = true.
Proof.
  unfold quiz_round, bind, call.
  destruct (ask t) as [e | prediction].
  { intros [= <- <-]. exists []. rewrite app_nil_r. cbn. repeat split; lia. }
  cbn [ret]. rewrite run_test_case_unfold.
  destruct (mkdtemp w) as [e | tmp].
  { intros [= <- <-]. exists []. rewrite app_nil_r. cbn. repeat split; lia. }
  cbn zeta. destruct (copytree w test_case (tmp // name test_case)) as [e |].
  { intros [= <- <-]. eexists. split; [reflexivity |]. cbn.
    repeat split; lia. }
  assert (Hscored : forall r q,
             total_questions q <= total_questions (scored prediction r q)
             <= total_questions q + 1).
  { intros r q. unfold scored.
    destruct (prediction =? "skip")%string; cbn; lia. }
  destruct (find_main_file w (tmp // name test_case) main_files) as [f |].
  - destruct (subprocess_run w _ _ 10) as [[| cls msg | cls] | cp];
      rewrite ?score_round_spec; cbn [fst snd after self log];
      try (destruct (ack t));
      intros [= <- <-]; eexists; (split; [reflexivity |]); cbn;
      repeat split; try lia; apply Hscored.
  - rewrite score_round_spec. cbn [fst snd after self log].
    destruct (ack t); intros [= <- <-]; eexists;
      (split; [reflexivity |]); cbn; repeat split; try lia; apply Hscored.
Qed.

(** The events and the questions of the loop. *)
Lemma quiz_loop_events :
  forall (w : world) (console : nat -> turn) (test_cases : list Path)
         (i : nat) (s s' : state) (o : exn + unit),
    quiz_loop w console i test_cases s = (s', o) ->
    exists added,
      log s' = (log s ++ added)%list
      /\ (count_events is_mkdtemp added <= List.length test_cases)%nat
      /\ (count_events is_spawn added <= count_events is_mkdtemp added)%nat
      /\ total_questions (self s) <= total_questions (self s')
         <= total_questions (self s) + Z.of_nat (count_events is_mkdtemp added)
      /\ forallb (fun ev => negb (is_score_line ev)) added = true.
Proof.
  intros w console test_cases.
  induction test_cases as [| test_case rest IH]; intros i s s' o; cbn.
  - intros [= <- <-]. exists []. rewrite app_nil_r. cbn. repeat split; lia.
  - unfold bind.
    destruct (quiz_round w test_case (console i) s) as [s1 [e | []]] eqn:Hround;
      apply quiz_round_events in Hround
        as (added1 & Hlog1 & Hruns1 & Hspawn1 & Htotal1 & Hline1).
    + intros [= <- <-]. exists added1. repeat split; try lia; assumption.
    + intros Hrest. apply IH in Hrest
        as (added2 & Hlog2 & Hruns2 & Hspawn2 & Htotal2 & Hline2).
      exists (added1 ++ added2)%list.
      rewrite !count_events_app, forallb_app, Hline1, Hline2.
      rewrite Hlog2, Hlog1, app_assoc. repeat split; lia.
Qed.



(** X9. The prediction comes before the run: when the console raises
    before a prediction is made, the loop stops there with that
    exception, and neither this fixture nor any later one is copied or
    run: the object and the record of events are as they were. *)
Theorem no_prediction_no_run :
  forall (w : world) (console : nat -> turn) (i : nat)
         (test_case : Path) (rest : list Path) (s : state) (e : exn),
    ask (console i) = inl e ->
    quiz_loop w console i (test_case :: rest) s = (s, inl e).
Proof.
  intros w console i test_case rest s e Hask.
  cbn [quiz_loop]. unfold bind, quiz_round, call. now rewrite Hask.
Qed.

Lemma no_prediction_no_run_witness :
  quiz_loop world_completed
    (fun _ => {| ask := inl keyboard_interrupt; ack := None |}) 1
    [fixture; fixture] fresh
  = (fresh, inl keyboard_interrupt).
Proof.
  apply (no_prediction_no_run world_completed
           (fun _ => {| ask := inl keyboard_interrupt; ack := None |}) 1
           fixture [fixture] fresh keyboard_interrupt).
  reflexivity.
Defined.

(* ================================================================== *)
(** * Further properties of run_quiz and main *)

Lemma get_test_cases_unfold (w : world) (s : state) :
  get_test_cases w s
  = (after s (if exists_ w (test_cases_dir (self s)) then []
              else [Print ("Error: Test cases directory '"
                           ++ str_path (test_cases_dir (self s))
                           ++ "' not found!")]),
     listing w (test_cases_dir (self s))).
Proof.
  unfold get_test_cases, listing, bind, get_self, call, emit, ret, raise, after.
  destruct s as [q events]. cbn [self log].
  destruct (exists_ w (test_cases_dir q)); cbn [negb self log].
  - rewrite app_nil_r. now destruct (listdir w (test_cases_dir q)).
  - reflexivity.
Qed.

(** X10. With no fixture to play (the root is missing, or it holds no
    directory that is not hidden) [run_quiz] says so and returns: nothing
    is copied or run, the counters are untouched and no final score is
    shown. *)
Theorem run_quiz_without_fixtures :
  forall (w : world) (console : nat -> turn) (s : state),
    listing w (test_cases_dir (self s)) = inr [] ->
    run_quiz w console s
    = (after s
         ((if exists_ w (test_cases_dir (self s)) then []
           else [Print ("Error: Test cases directory '"
                        ++ str_path (test_cases_dir (self s))
                        ++ "' not found!")])
          ++ [Print "No test cases found. Please create some test cases first."]),
       inr tt).
Proof.
  intros w console s Hnone. unfold run_quiz, bind.
  rewrite get_test_cases_unfold, Hnone. unfold emit, after. cbn [self log].
  now rewrite <- app_assoc.
Qed.

Lemma run_quiz_without_fixtures_witness :
  run_quiz world_completed sample_console
    {| self := init ["elsewhere"]; log := [] |}
  = (after {| self := init ["elsewhere"]; log := [] |}
       ((if exists_ world_completed ["elsewhere"] then []
         else [Print ("Error: Test cases directory '"
                      ++ str_path ["elsewhere"] ++ "' not found!")])
        ++ [Print "No test cases found. Please create some test cases first."]),
     inr tt).
Proof.
  apply (run_quiz_without_fixtures world_completed sample_console
           {| self := init ["elsewhere"]; log := [] |}).
  reflexivity.
Defined.

Lemma quiz_loop_all_skipped (w : world) (console : nat -> turn) :
  (forall j, ask (console j) = inr "skip") ->
  forall test_cases i s,
    self (fst (quiz_loop w console i test_cases s)) = self s.
Proof.
  intros Hskip. induction test_cases as [| test_case rest IH]; intros i s;
    cbn [quiz_loop]; [reflexivity |].
  unfold bind.
  pose proof (quiz_round_self w test_case (console i) s) as Hself.
  rewrite Hskip in Hself.
  assert (self (fst (quiz_round w test_case (console i) s)) = self s) as Hsame
      by (rewrite Hself; now destruct (snd (run_test_case w test_case s))).
  destruct (quiz_round w test_case (console i) s) as [s1 [e | []]];
    cbn [fst] in *; [assumption |].
  now rewrite IH.
Qed.

(** X11. When the user skips every fixture, the counters end where they
    began; for a new quiz that is zero questions, so when the quiz runs
    to its end over at least one fixture the report is the banner, "No
    questions were answered." and the farewell, and no score line (no
    percentage) is printed anywhere. *)
Theorem all_skipped_quiz_reports_no_questions :
  forall (w : world) (console : nat -> turn) (dir : Path)
         (events : list event) (s' : state),
    (forall j, ask (console j) = inr "skip") ->
    listing w dir <> inr [] ->
    run_quiz w console {| self := init dir; log := events |} = (s', inr tt) ->
    self s' = init dir
    /\ exists before,
        log s' = (events ++ before ++ banner
                         ++ [Print "No questions were answered."; farewell])%list
        /\ forallb (fun ev => negb (is_score_line ev)) before = true.
Proof.
  intros w console dir events s' Hskip Hsome.
  unfold run_quiz, bind. rewrite get_test_cases_unfold. cbn [self init test_cases_dir].
  destruct (listing w dir) as [e | [| test_case rest]];
    [discriminate | contradiction |].
  set (s0 := after _ _).
  pose proof (quiz_loop_all_skipped w console Hskip (test_case :: rest) 1%nat s0)
    as Hself.
  destruct (quiz_loop w console 1 (test_case :: rest) s0) as [s1 [e | []]] eqn:Hloop;
    [discriminate |].
  cbn [fst] in Hself.
  apply quiz_loop_events in Hloop
    as (added & Hlog & _ & _ & _ & Hline).
  rewrite display_final_score_unfold, Hself. subst s0.
  unfold after in *. cbn [self log init total_questions] in *.
  intros [= <-]. cbn [self log]. split; [exact Hself |].
  exists ((if exists_ w dir then []
           else [Print ("Error: Test cases directory '" ++ str_path dir
                        ++ "' not found!")]) ++ added)%list.
  split.
  - rewrite Hlog. cbn [Z.gtb Z.compare]. now rewrite <- !app_assoc.
  - rewrite forallb_app, Hline. now destruct (exists_ w dir).
Qed.

Lemma all_skipped_quiz_reports_no_questions_witness :
  self (fst (run_quiz world_completed
               (fun _ => {| ask := inr "skip"; ack := None |}) fresh))
  = init ["test_cases"]
  /\ exists before,
      log (fst (run_quiz world_completed
                  (fun _ => {| ask := inr "skip"; ack := None |}) fresh))
      = ([] ++ before ++ banner
            ++ [Print "No questions were answered."; farewell])%list
      /\ forallb (fun ev => negb (is_score_line ev)) before = true.
Proof.
  apply (all_skipped_quiz_reports_no_questions world_completed
           (fun _ => {| ask := inr "skip"; ack := None |})
           ["test_cases"] []).
  - reflexivity.
  - discriminate.
  - reflexivity.
Defined.

Lemma quiz_loop_dir (w : world) (console : nat -> turn) :
  forall test_cases i s,
    test_cases_dir (self (fst (quiz_loop w console i test_cases s)))
    = test_cases_dir (self s).
Proof.
  induction test_cases as [| test_case rest IH]; intros i s;
    cbn [quiz_loop]; [reflexivity |].
  unfold bind.
  pose proof (quiz_round_self w test_case (console i) s) as Hself.
  assert (test_cases_dir (self (fst (quiz_round w test_case (console i) s)))
          = test_cases_dir (self s)) as Hsame.
  { rewrite Hself. destruct (ask (console i)) as [e | p]; [reflexivity |].
    destruct (snd (run_test_case w test_case s)); [reflexivity |].
    unfold scored. now destruct (p =? "skip")%string. }
  destruct (quiz_round w test_case (console i) s) as [s1 [e | []]];
    cbn [fst] in *; [assumption |].
  now rewrite IH.
Qed.

Lemma main_unfold (w : world) (console : nat -> turn) (s : state) :
  main w console s
  = let s0 := {| self := init ["test_cases"]; log := log s |} in
    match run_quiz w console s0 with
    | (s1, inr tt) => (s1, inr tt)
    | (s1, inl e) =>
        match main_handler e with
        | Some h => h s1
        | None => (s1, inl e)
        end
    end.
Proof.
  unfold main, bind, set_self, try_except. cbn zeta.
  now destruct (run_quiz w console _) as [s1 [e | []]].
Qed.

(** X12. [main] starts a new quiz and lets neither an [Exception] nor a
    [KeyboardInterrupt] out: the only exception that can leave it is
    another [BaseException]. Whatever the state before and however the
    quiz ends, the counters of the quiz satisfy
    0 <= score <= total_questions. *)
Theorem main_catches_exceptions :
  forall (w : world) (console : nat -> turn) (s s' : state)
         (o : exn + unit),
    main w console s = (s', o) ->
    0 <= score (self s') <= total_questions (self s')
    /\ test_cases_dir (self s') = ["test_cases"]
    /\ forall e, o = inl e ->
                 exists cls, e = PyBaseException cls
                             /\ cls <> "KeyboardInterrupt".
Proof.
  intros w console s s' o. rewrite main_unfold. cbn zeta.
  set (s0 := {| self := init ["test_cases"]; log := log s |}).
  assert (score_ok (self s0)) as H0 by (unfold score_ok; cbn; lia).
  destruct (run_quiz_ok w console s0 H0) as [Hok _].
  assert (test_cases_dir (self (fst (run_quiz w console s0))) = ["test_cases"])
    as Hdir.
  { unfold run_quiz, bind. rewrite get_test_cases_unfold.
    destruct (listing w _) as [e | [| test_case rest]]; cbn [fst]; try reflexivity.
    set (s1 := after s0 _).
    pose proof (quiz_loop_dir w console (test_case :: rest) 1%nat s1) as Hloop.
    destruct (quiz_loop w console 1 (test_case :: rest) s1) as [s2 [e | []]];
      cbn [fst] in *; [assumption |].
    now rewrite display_final_score_unfold. }
  destruct (run_quiz w console s0) as [s1 [e | []]]; cbn [fst] in *.
  - destruct e as [| cls msg | cls]; cbn [main_handler].
    + unfold bind, emit. intros [= <- <-]. cbn [self]. repeat split; try apply Hok;
        [assumption | discriminate].
    + unfold bind, emit. intros [= <- <-]. cbn [self]. repeat split; try apply Hok;
        [assumption | discriminate].
    + destruct (String.eqb_spec cls "KeyboardInterrupt").
      * unfold emit. intros [= <- <-]. cbn [self]. repeat split; try apply Hok;
          [assumption | discriminate].
      * intros [= <- <-]. repeat split; try apply Hok; [assumption |].
        intros e [= <-]. now exists cls.
  - intros [= <- <-]. repeat split; try apply Hok; [assumption | discriminate].
Qed.

Lemma main_catches_exceptions_witness :
  0 <= score (self (fst (main world_interrupted sample_console fresh)))
    <= total_questions (self (fst (main world_interrupted sample_console fresh)))
  /\ test_cases_dir (self (fst (main world_interrupted sample_console fresh)))
     = ["test_cases"]
  /\ forall e, snd (main world_interrupted sample_console fresh) = inl e ->
               exists cls, e = PyBaseException cls
                           /\ cls <> "KeyboardInterrupt".
Proof.
  apply (main_catches_exceptions world_interrupted sample_console fresh).
  apply surjective_pairing.
Defined.

(** X13. A fixture that cannot be copied ends the whole quiz: when the
    copy of the first fixture raises an [Exception], [main] reports "An
    error occurred" with the text of the exception and returns; the
    temporary directory is removed, no child is launched, the remaining
    fixtures are not played and no final score is shown. *)
Theorem copy_failure_ends_the_quiz :
  forall (w : world) (console : nat -> turn) (s : state)
         (test_case : Path) (rest : list Path) (prediction : string)
         (temp_path : Path) (cls msg : string),
    listing w ["test_cases"] = inr (test_case :: rest) ->
    ask (console 1%nat) = inr prediction ->
    mkdtemp w = inr temp_path ->
    copytree w test_case (temp_path // name test_case)
    = Some (PyException cls msg) ->
    main w console s
    = ({| self := init ["test_cases"];
          log := (log s
                  ++ [Mkdtemp temp_path;
                      Copytree test_case (temp_path // name test_case);
                      Cleanup temp_path;
                      Print (nl ++ "An error occurred: " ++ msg);
                      Print "Please check your test cases and try again."])%list |},
       inr tt).
Proof.
  intros w console s test_case rest prediction tmp cls msg
         Hlist Hask Htemp Hcopy.
  assert (exists_ w ["test_cases"] = true) as Hroot.
  { unfold listing in Hlist. now destruct (exists_ w ["test_cases"]). }
  rewrite main_unfold. cbn zeta. unfold run_quiz, bind.
  rewrite get_test_cases_unfold. cbn [self init test_cases_dir].
  rewrite Hlist, Hroot. cbn [quiz_loop]. unfold quiz_round, bind, call.
  rewrite Hask. unfold ret. rewrite run_test_case_unfold, Htemp. cbn zeta.
  rewrite Hcopy. cbn [main_handler]. unfold bind, emit, after.
  cbn [self log str_exn]. rewrite app_nil_r, <- !app_assoc. reflexivity.
Qed.

Lemma copy_failure_ends_the_quiz_witness :
  main world_copy_denied sample_console fresh
  = ({| self := init ["test_cases"];
        log := (log fresh
                ++ [Mkdtemp tmp_dir;
                    Copytree ["test_cases"; "01_basic"]
                      (tmp_dir // name ["test_cases"; "01_basic"]);
                    Cleanup tmp_dir;
                    Print (nl ++ "An error occurred: "
                              ++ "[Errno 13] Permission denied: 'main.py'");
                    Print "Please check your test cases and try again."])%list |},
     inr tt).
Proof.
  apply (copy_failure_ends_the_quiz world_copy_denied sample_console fresh
           ["test_cases"; "01_basic"] [["test_cases"; "02_pkg"]]
           "modulenotfounderror" tmp_dir "PermissionError");
    reflexivity.
Defined.

(** X14. A new quiz never counts more questions than there are
    fixtures, and never launches more children than there are fixtures:
    however [run_quiz] ends, 0 <= score <= total_questions <= the number
    of fixtures listed (none when the listing failed). *)
Theorem quiz_bounded_by_fixtures :
  forall (w : world) (console : nat -> turn) (dir : Path)
         (events : list event) (s' : state) (o : exn + unit),
    run_quiz w console {| self := init dir; log := events |} = (s', o) ->
    exists fixtures added,
      (listing w dir = inr fixtures
       \/ (fixtures = [] /\ exists e, listing w dir = inl e))
      /\ log s' = (events ++ added)%list
      /\ 0 <= score (self s') <= total_questions (self s')
      /\ total_questions (self s') <= Z.of_nat (List.length fixtures)
      /\ (count_events is_spawn added <= List.length fixtures)%nat.
Proof.
  intros w console dir events s' o.
  unfold run_quiz, bind. rewrite get_test_cases_unfold.
  cbn [self init test_cases_dir].
  set (listed := if exists_ w dir then [] else [_]).
  assert (count_events is_spawn listed = 0%nat) as Hlisted
      by (subst listed; now destruct (exists_ w dir)).
  destruct (listing w dir) as [e | fixtures] eqn:Hlist.
  - intros [= <- <-]. exists [], listed. cbn.
    repeat split; try lia. right. split; [reflexivity | now exists e].
  - destruct fixtures as [| test_case rest].
    + unfold emit, after. cbn [self log]. intros [= <- <-].
      exists []. eexists. rewrite <- app_assoc. cbn [self log].
      split; [now left |]. split; [reflexivity |].
      rewrite count_events_app, Hlisted. cbn. lia.
    + set (s0 := after _ listed).
      assert (score_ok (self s0)) as H0 by (unfold score_ok; cbn; lia).
      pose proof (quiz_loop_ok w console (test_case :: rest) 1%nat s0 H0)
        as [Hok _].
      destruct (quiz_loop w console 1 (test_case :: rest) s0)
        as [s1 [e | []]] eqn:Hloop;
        apply quiz_loop_events in Hloop
          as (added & Hlog & Hruns & Hspawn & Htotal & _);
        cbn [fst] in Hok; unfold score_ok in Hok;
        subst s0; unfold after in *; cbn [self log init total_questions] in *.
      * intros [= <- <-]. exists (test_case :: rest), (listed ++ added)%list.
        rewrite Hlog, <- app_assoc, count_events_app, Hlisted.
        split; [now left |]. split; [reflexivity |]. lia.
      * rewrite display_final_score_unfold. unfold after. cbn [self log].
        intros [= <- <-]. cbn [self log]. exists (test_case :: rest). eexists.
        rewrite Hlog, <- !app_assoc. split; [now left |].
        split; [reflexivity |].
        rewrite !count_events_app, Hlisted.
        destruct (total_questions (self s1) >? 0);
          unfold farewell, count_events in *;
          cbn [filter is_spawn app List.length] in *; lia.
Qed.

Lemma quiz_bounded_by_fixtures_witness :
  exists fixtures added,
    (listing world_completed ["test_cases"] = inr fixtures
     \/ (fixtures = []
         /\ exists e, listing world_completed ["test_cases"] = inl e))
    /\ log (fst (run_quiz world_completed sample_console fresh))
       = ([] ++ added)%list
    /\ 0 <= score (self (fst (run_quiz world_completed sample_console fresh)))
       <= total_questions
            (self (fst (run_quiz world_completed sample_console fresh)))
    /\ total_questions
         (self (fst (run_quiz world_completed sample_console fresh)))
       <= Z.of_nat (List.length fixtures)
    /\ (count_events is_spawn added <= List.length fixtures)%nat.
Proof.
  apply (quiz_bounded_by_fixtures world_completed sample_console
           ["test_cases"] []
           (fst (run_quiz world_completed sample_console fresh))
           (snd (run_quiz world_completed sample_console fresh))).
  apply surjective_pairing.
Defined.

(* ================================================================== *)
(** * The final message in exact arithmetic *)

Lemma messages_agree_100 : messages_agree_up_to 100 = true.
Proof. vm_compute. reflexivity. Qed.

Lemma messages_agree_spec (n : nat) :
  messages_agree_up_to n = true ->
  forall correct asked : Z,
    0 <= correct <= asked -> 0 < asked <= Z.of_nat n ->
    float_message (float_of_int correct / float_of_int asked * 100)%float
    = exact_message correct asked.
Proof.
  unfold messages_agree_up_to. rewrite forallb_forall.
  intros Hall correct asked Hcorrect Hasked.
  specialize (Hall (Z.to_nat asked) ltac:(apply in_seq; lia)).
  unfold messages_agree in Hall. rewrite forallb_forall in Hall.
  specialize (Hall (Z.to_nat correct) ltac:(apply in_seq; lia)).
  rewrite !Z2Nat.id in Hall by lia.
  now apply String.eqb_eq in Hall.
Qed.

Lemma float_message_exact (correct asked : Z) :
  0 <= correct <= asked -> 0 < asked <= 100 ->
  float_message (float_of_int correct / float_of_int asked * 100)%float
  = exact_message correct asked.
Proof.
  intros Hcorrect Hasked.
  apply (messages_agree_spec 100 messages_agree_100); [exact Hcorrect |].
  change (Z.of_nat 100) with 100. exact Hasked.
Qed.

(** X15. For a quiz of at most 100 questions the rounding of the
    floating-point percentage moves no boundary: the final report shows
    the first message exactly when at least nine answers in ten were
    right, the second when at least seven in ten, the third when at
    least half, and the last one otherwise. *)
Theorem final_message_is_exact :
  forall s : state,
    0 <= score (self s) <= total_questions (self s) ->
    0 < total_questions (self s) <= 100 ->
    display_final_score s
    = (after s
         (banner
          ++ [PrintScore (score (self s)) (total_questions (self s))
                (percentage_of (self s));
              Print (exact_message (score (self s))
                       (total_questions (self s)));
              farewell]),
       inr tt).
Proof.
  intros s Hscore Htotal. rewrite display_final_score_unfold.
  destruct (Z.gtb_spec (total_questions (self s)) 0); [| lia].
  rewrite <- (float_message_exact _ _ Hscore Htotal).
  reflexivity.
Qed.

Lemma final_message_is_exact_witness :
  display_final_score (played 7 10)
  = (after (played 7 10)
       (banner
        ++ [PrintScore 7 10 (percentage_of (self (played 7 10)));
            Print (exact_message 7 10);
            farewell]),
     inr tt).
Proof.
  apply (final_message_is_exact (played 7 10)); cbn; lia.
Defined.

(* ================================================================== *)
(** * Properties of ask_prediction *)

Lemma predictions_in_range (n : Z) :
  1 <= n <= 6 -> exists p, predictions n = Some p /\ In p menu_tokens.
Proof.
  intros Hn.
  assert (n = 1 \/ n = 2 \/ n = 3 \/ n = 4 \/ n = 5 \/ n = 6)
    as [-> | [-> | [-> | [-> | [-> | ->]]]]] by lia;
    eexists; (split; [reflexivity |]); cbn; auto 8.
Qed.

(** One turn of the loop, by what the line amounts to. *)
Lemma ask_prediction_loop_step (line : string) (rest : list string) :
  ask_prediction_loop (line :: rest)
  = match answer line with
    | Some p => ([], (rest, inr p))
    | None =>
        let '(printed, outcome) := ask_prediction_loop rest in
        (Print (match py_int (lower (strip line)) with
                | None => "Please enter a valid number or 'skip'"
                | Some _ => "Please enter a number between 1-6 or 'skip'"
                end) :: printed,
         outcome)
    end.
Proof.
  cbn [ask_prediction_loop]. unfold answer.
  destruct (lower (strip line) =? "skip")%string; [reflexivity |].
  destruct (py_int (lower (strip line))) as [n |]; [| reflexivity].
  destruct ((1 <=? n) && (n <=? 6))%bool eqn:Hrange; [| reflexivity].
  apply andb_prop in Hrange as [H1 H6].
  apply Z.leb_le in H1, H6.
  destruct (predictions_in_range n (conj H1 H6)) as (p & -> & _).
  reflexivity.
Qed.

Lemma answer_token (line p : string) :
  answer line = Some p -> p = "skip" \/ In p menu_tokens.
Proof.
  unfold answer.
  destruct (lower (strip line) =? "skip")%string; [intros [= <-]; now left |].
  destruct (py_int (lower (strip line))) as [n |]; [| discriminate].
  destruct ((1 <=? n) && (n <=? 6))%bool eqn:Hrange; [| discriminate].
  apply andb_prop in Hrange as [H1 H6]. apply Z.leb_le in H1, H6.
  destruct (predictions_in_range n (conj H1 H6)) as (q & Hq & Hin).
  rewrite Hq. intros [= <-]. now right.
Qed.

Lemma ask_prediction_loop_token (stdin : list string) :
  match snd (ask_prediction_loop stdin) with
  | (rest, inr p) => p = "skip" \/ In p menu_tokens
  | (rest, inl e) => e = EOFError /\ rest = []
  end.
Proof.
  induction stdin as [| line stdin IH]; [now split |].
  rewrite ask_prediction_loop_step.
  destruct (answer line) as [p |] eqn:Hp.
  - cbn. now apply answer_token with line.
  - now destruct (ask_prediction_loop stdin) as [printed [rest o]].
Qed.

(** X16. Whatever is typed, [ask_prediction] returns "skip" or one of
    the six tokens of the menu, and nothing else; it raises only when
    the input ends before a valid answer, and then it is [EOFError] with
    every line read. The lookup in [predictions] never misses. *)
Theorem ask_prediction_returns_a_token :
  forall stdin : list string,
    match snd (ask_prediction stdin) with
    | (rest, inr p) => p = "skip" \/ In p menu_tokens
    | (rest, inl e) => e = EOFError /\ rest = []
    end.
Proof.
  intros stdin. unfold ask_prediction.
  pose proof (ask_prediction_loop_token stdin) as Hloop.
  now destruct (ask_prediction_loop stdin) as [printed [rest o]].
Qed.

(** X17. The prompt is shown again for every line that is no valid
    answer, with one message per such line, and the first valid answer
    is what [ask_prediction] returns, leaving the lines after it unread;
    when no line is a valid answer, all are read and [EOFError] is
    raised. *)
Theorem first_valid_answer_wins :
  forall (bad : list string) (good : string) (rest : list string),
    Forall (fun line => is_plain line = true) (bad ++ [good]) ->
    Forall (fun line => answer line = None) bad ->
    (forall p,
        answer good = Some p ->
        exists messages,
          ask_prediction (bad ++ good :: rest)
          = ((menu ++ messages)%list, (rest, inr p))
          /\ List.length messages = List.length bad
          /\ forallb is_reprompt messages = true)
    /\ (exists messages,
           ask_prediction bad = ((menu ++ messages)%list, ([], inl EOFError))
           /\ List.length messages = List.length bad
           /\ forallb is_reprompt messages = true).
Proof.
  intros bad good rest _ Hbad. unfold ask_prediction.
  induction Hbad as [| line bad Hline Hbad IH].
  - split.
    + intros p Hp. exists []. cbn [app]. rewrite ask_prediction_loop_step, Hp.
      now repeat split.
    + exists []. now repeat split.
  - destruct IH as [IHgood IHeof]. split.
    + intros p Hp. destruct (IHgood p Hp) as (messages & Hrun & Hlen & Hmsg).
      cbn [app]. rewrite ask_prediction_loop_step, Hline.
      destruct (ask_prediction_loop (bad ++ good :: rest)) as [printed o].
      injection Hrun as -> ->.
      eexists. split; [reflexivity |]. cbn [List.length forallb].
      split; [now rewrite Hlen |]. rewrite Hmsg.
      now destruct (py_int (lower (strip line))).
    + destruct IHeof as (messages & Hrun & Hlen & Hmsg).
      rewrite ask_prediction_loop_step, Hline.
      destruct (ask_prediction_loop bad) as [printed o].
      injection Hrun as -> ->.
      eexists. split; [reflexivity |]. cbn [List.length forallb].
      split; [now rewrite Hlen |]. rewrite Hmsg.
      now destruct (py_int (lower (strip line))).
Qed.

Lemma first_valid_answer_wins_witness :
  exists messages,
    ask_prediction (["maybe"; "7"; ""] ++ " 3 " :: ["1"])
    = ((menu ++ messages)%list, (["1"], inr "modulenotfounderror"))
    /\ List.length messages = List.length ["maybe"; "7"; ""]
    /\ forallb is_reprompt messages = true.
Proof.
  apply (proj1 (first_valid_answer_wins ["maybe"; "7"; ""] " 3 " ["1"]
                  ltac:(repeat constructor)
                  ltac:(repeat constructor))
           "modulenotfounderror").
  reflexivity.
Defined.

(** X18. The predictions a user can enter and be scored on are exactly
    the predictions that can be right: [ask_prediction] can return a
    token other than "skip" if and only if [check_prediction] accepts
    that token for some result. *)
Theorem entered_predictions_are_the_scoreable_ones :
  forall p : string,
    (p <> "skip"
     /\ exists stdin printed rest,
         ask_prediction stdin = (printed, (rest, inr p)))
    <-> exists r, check_prediction p r = true.
Proof.
  intros p. split.
  - intros (Hskip & stdin & printed & rest & Hrun).
    pose proof (ask_prediction_loop_token stdin) as Htoken.
    unfold ask_prediction in Hrun.
    destruct (ask_prediction_loop stdin) as [printed' [rest' o]].
    injection Hrun as _ -> ->. cbn in Htoken.
    destruct Htoken as [-> | Hin]; [contradiction |].
    unfold menu_tokens in Hin. cbn in Hin.
    destruct Hin as [<- | [<- | [<- | [<- | [<- | [<- | []]]]]]].
    + now exists (completed_result (mkCompleted 0 "" "")).
    + now exists (completed_result (mkCompleted 1 "" "ImportError")).
    + now exists (completed_result (mkCompleted 1 "" "ModuleNotFoundError")).
    + now exists (completed_result (mkCompleted 1 "" "AttributeError")).
    + now exists (completed_result (mkCompleted 1 "" "SyntaxError")).
    + now exists timeout_result.
  - intros [r Hr]. split.
    + intros ->. discriminate Hr.
    + apply check_prediction_cases in Hr
        as [[-> _] | [_ [-> | [-> | [-> | [-> | ->]]]]]].
      * now exists ["1"], menu, [].
      * now exists ["2"], menu, [].
      * now exists ["3"], menu, [].
      * now exists ["4"], menu, [].
      * now exists ["5"], menu, [].
      * now exists ["6"], menu, [].
Qed.

(* ================================================================== *)
(** * Properties of the two displays *)

Lemma insert_by_perm {A} (ltb : A -> A -> bool) (x : A) (l : list A) :
  Permutation (x :: l) (insert_by ltb x l).
Proof.
  induction l as [| y l IH]; cbn; [reflexivity |].
  destruct (ltb y x); [| reflexivity].
  rewrite perm_swap. now constructor.
Qed.

Lemma sort_by_perm {A} (ltb : A -> A -> bool) (l : list A) :
  Permutation l (sort_by ltb l).
Proof.
  induction l as [| x l IH]; cbn; [constructor |].
  rewrite <- insert_by_perm. now constructor.
Qed.

(** Induction on a tree, with the property for every child of a
    directory. *)
Lemma node_induction (P : node -> Prop) :
  (forall n content, P (File n content)) ->
  (forall n children, Forall P children -> P (Dir n children)) ->
  (forall n, P (Other n)) ->
  forall item, P item.
Proof.
  intros Hfile Hdir Hother.
  fix IH 1. intros [n content | n children | n].
  - apply Hfile.
  - apply Hdir. induction children as [| c children IHc]; constructor.
    + apply IH.
    + exact IHc.
  - apply Hother.
Qed.

Lemma string_app_assoc (a b c : string) : (a ++ b) ++ c = a ++ b ++ c.
Proof. induction a as [| x a IH]; cbn; [reflexivity | now rewrite IH]. Qed.

(** What the walk of a list of items prints, when each item prints its
    visible names once. *)
Definition lists_names (item : node) (lines : string -> bool -> list event)
  : Prop :=
  forall prefix is_last,
  exists order,
    lines prefix is_last = map tree_line order
    /\ Permutation (map snd order) (visible_names item).

Lemma print_items_names
  (items : list (walked (string -> bool -> list event))) :
  Forall (fun it => lists_names (fst it) (snd it)) items ->
  forall prefix,
  exists order,
    print_items items prefix = map tree_line order
    /\ Permutation (map snd order) (flat_map visible_names (map fst items)).
Proof.
  induction 1 as [| [item lines] items Hitem _ IH]; intros prefix.
  - now exists [].
  - destruct (IH prefix) as (order2 & Hlines2 & Hperm2).
    destruct (Hitem prefix (match items with [] => true | _ => false end))
      as (order1 & Hlines1 & Hperm1).
    cbn [fst snd] in Hlines1, Hperm1.
    exists (order1 ++ order2)%list. cbn [print_items map flat_map fst].
    rewrite Hlines2, !map_app. split.
    + f_equal. exact Hlines1.
    + now apply Permutation_app.
Qed.

Lemma walked_names (children : list node) :
  Forall (fun c => lists_names c (print_item c)) children ->
  forall prefix,
  exists order,
    print_items
      (sort_walked tree_key (map (fun c => (c, print_item c)) children)) prefix
    = map tree_line order
    /\ Permutation (map snd order) (flat_map visible_names children).
Proof.
  intros Hchildren prefix.
  set (items := map (fun c => (c, print_item c)) children).
  assert (Permutation items (sort_walked tree_key items)) as Hsort
      by apply sort_by_perm.
  assert (Forall (fun it => lists_names (fst it) (snd it)) items) as Hitems.
  { subst items. rewrite Forall_map. exact Hchildren. }
  destruct (print_items_names (sort_walked tree_key items)
              (Permutation_Forall Hsort Hitems) prefix)
    as (order & Hlines & Hperm).
  exists order. split; [exact Hlines |].
  rewrite Hperm. apply Permutation_flat_map. symmetry.
  replace children with (map fst items)
    by (subst items; rewrite map_map; apply map_id).
  now apply Permutation_map.
Qed.

Lemma print_item_names (item : node) : lists_names item (print_item item).
Proof.
  induction item as [n content | n children IH | n] using node_induction;
    intros prefix is_last.
  - exists [(prefix ++ (if is_last then "└── " else "├── "), n)].
    cbn. unfold tree_line. cbn. now rewrite string_app_assoc.
  - cbn [print_item visible_names node_name]. unfold is_hidden.
    destruct (startswith n "."); cbn [negb].
    + exists [(prefix ++ (if is_last then "└── " else "├── "), n)].
      cbn. unfold tree_line. cbn. now rewrite string_app_assoc.
    + destruct (walked_names children IH
                  (prefix ++ (if is_last then "    " else "│   ")))
        as (order & Hlines & Hperm).
      exists ((prefix ++ (if is_last then "└── " else "├── "), n) :: order).
      cbn [map snd]. rewrite Hlines. unfold tree_line at 2. cbn [fst snd].
      rewrite string_app_assoc. split; [reflexivity |]. now constructor.
  - exists [(prefix ++ (if is_last then "└── " else "├── "), n)].
    cbn. unfold tree_line. cbn. now rewrite string_app_assoc.
Qed.

(** X19. The tree display prints one line per entry of the fixture and
    nothing else: each line is a drawing followed by the name of an
    entry, and the names printed are, each as often as it occurs, the
    names of all entries that do not lie inside a hidden directory. A
    hidden directory itself is listed; what it holds is not. *)
Theorem print_tree_lists_each_visible_entry_once :
  forall (children : list node) (prefix : string),
    exists order : list (string * string),
      print_tree children prefix = map tree_line order
      /\ Permutation (map snd order) (flat_map visible_names children)
      /\ List.length (print_tree children prefix)
         = List.length (flat_map visible_names children).
Proof.
  intros children prefix.
  assert (Forall (fun c => lists_names c (print_item c)) children) as Hall
      by (apply Forall_forall; intros c _; apply print_item_names).
  destruct (walked_names children Hall prefix) as (order & Hlines & Hperm).
  exists order. unfold print_tree. repeat split; try assumption.
  rewrite Hlines, length_map, <- (length_map snd order).
  now apply Permutation_length.
Qed.

Example print_tree_sample :
  print_tree sample_tree ""
  = [Print "├── .git";
     Print "├── myproject";
     Print "│   ├── utils";
     Print "│   │   ├── math_utils.py";
     Print "│   │   └── string_utils.py";
     Print "│   ├── __init__.py";
     Print "│   ├── core.py";
     Print "│   └── notes.txt";
     Print "├── socket";
     Print "├── .hidden.py";
     Print "└── main.py"].
Proof. reflexivity. Qed.







Example show_files_sample :
  show_files sample_tree ""
  = file_blocks
      [("main.py", inr "import myproject");
       ("myproject/__init__.py", inr "  ");
       ("myproject/core.py", inr "x = 1");
       ("myproject/utils/math_utils.py", inr "y = 2");
       ("myproject/utils/string_utils.py", inl "[Errno 13] Permission denied")].
Proof. reflexivity. Qed.

(** ** The order of the walk *)

Lemma str_ltb_asym (a b : string) :
  String.ltb a b = true -> String.ltb b a = false.
Proof.
  unfold String.ltb. rewrite (String.compare_antisym b a).
  now destruct (String.compare a b).
Qed.

Lemma str_not_ltb_trans (a b c : string) :
  String.ltb b a = false -> String.ltb c b = false -> String.ltb c a = false.
Proof.
  unfold String.ltb. intros Hba Hcb.
  destruct (String.compare c a) eqn:Hca; try reflexivity. exfalso.
  destruct (String.compare b a) eqn:Eba; try discriminate.
  - apply String.compare_eq_iff in Eba. subst b. now rewrite Hca in Hcb.
  - assert (String.compare a b = Lt) as Hab
        by (rewrite String.compare_antisym, Eba; reflexivity).
    now rewrite (StrOrder.str_lt_trans c a b Hca Hab) in Hcb.
Qed.

Lemma key_ltb_asym (k1 k2 : bool * string) :
  key_ltb k1 k2 = true -> key_ltb k2 k1 = false.
Proof.
  unfold key_ltb. destruct k1 as [[] s1], k2 as [[] s2]; cbn;
    try discriminate; try reflexivity; apply str_ltb_asym.
Qed.

Lemma key_not_ltb_trans (k1 k2 k3 : bool * string) :
  key_ltb k2 k1 = false -> key_ltb k3 k2 = false -> key_ltb k3 k1 = false.
Proof.
  unfold key_ltb. destruct k1 as [[] s1], k2 as [[] s2], k3 as [[] s3]; cbn;
    try discriminate; try reflexivity; apply str_not_ltb_trans.
Qed.

Section SortByKey.

Variable key : node -> bool * string.

Let node_ltb (a b : node) : bool := key_ltb (key a) (key b).

Lemma insert_by_key_sorted (x : node) (l : list node) :
  StronglySorted (listed_before key) l ->
  StronglySorted (listed_before key) (insert_by node_ltb x l).
Proof.
  induction 1 as [| y l Hl IH Hy]; cbn.
  - repeat constructor.
  - destruct (node_ltb y x) eqn:Hyx.
    + constructor; [assumption |].
      rewrite <- insert_by_perm. constructor; [| assumption].
      now apply key_ltb_asym.
    + constructor; [now constructor |].
      constructor; [exact Hyx |].
      eapply Forall_impl; [| exact Hy].
      intros z Hz. unfold listed_before in *.
      now apply key_not_ltb_trans with (key y).
Qed.

Lemma sort_by_key_sorted (l : list node) :
  StronglySorted (listed_before key) (sort_by node_ltb l).
Proof.
  induction l as [| x l IH]; cbn; [constructor |].
  now apply insert_by_key_sorted.
Qed.

(** Sorting the items with their lines is sorting the items. *)
Lemma sort_walked_map {lines} (f : node -> lines) (l : list node) :
  sort_walked key (map (fun c => (c, f c)) l)
  = map (fun c => (c, f c)) (sort_by node_ltb l).
Proof.
  unfold sort_walked.
  induction l as [| x l IH]; cbn [map sort_by]; [reflexivity |].
  rewrite IH. generalize (sort_by node_ltb l). clear.
  induction l as [| y l IH]; cbn [map insert_by fst]; [reflexivity |].
  fold (node_ltb y x). destruct (node_ltb y x); cbn [map]; [| reflexivity].
  now rewrite IH.
Qed.

End SortByKey.

(** X21. Both displays walk each directory in sorted order, and walk
    every item of it once with the lines of that item: the tree display
    takes what is not a regular file first and the regular files last,
    the display of the contents takes the directories last, each group
    in ascending order of the names. *)
Theorem displays_walk_in_sorted_order :
  forall (children : list node) (prefix : string),
    (exists items,
        Permutation items children
        /\ StronglySorted (listed_before tree_key) items
        /\ print_tree children prefix
           = print_items (map (fun c => (c, print_item c)) items) prefix)
    /\ (exists items,
           Permutation items children
           /\ StronglySorted (listed_before contents_key) items
           /\ show_files children prefix
              = flat_map (fun c => show_item c prefix) items).
Proof.
  intros children prefix. split.
  - exists (sort_by (fun a b => key_ltb (tree_key a) (tree_key b)) children).
    split; [symmetry; apply sort_by_perm |].
    split; [apply sort_by_key_sorted |].
    unfold print_tree. now rewrite sort_walked_map.
  - exists (sort_by (fun a b => key_ltb (contents_key a) (contents_key b))
              children).
    split; [symmetry; apply sort_by_perm |].
    split; [apply sort_by_key_sorted |].
    unfold show_files, show_items. rewrite sort_walked_map.
    now rewrite flat_map_concat_map, map_map, <- flat_map_concat_map.
Qed.

(** In the order of the tree display a directory is never after a file,
    and of two files, or two directories, the one with the smaller name
    is first. *)
Lemma listed_before_tree_key (a b : node) :
  listed_before tree_key a b <->
  (node_is_file a = false /\ node_is_file b = true)
  \/ (node_is_file a = node_is_file b
      /\ String.ltb (node_name b) (node_name a) = false).
Proof.
  unfold listed_before, key_ltb, tree_key. cbn [fst snd].
  destruct (node_is_file a), (node_is_file b); intuition discriminate.
Qed.

(* ================================================================== *)
(** * What the child is launched on *)

Lemma concat_snoc (sep f : string) (l : list string) :
  l <> [] ->
  String.concat sep (l ++ [f]) = String.concat sep l ++ sep ++ f.
Proof.
  induction l as [| a l IH]; [contradiction |]. intros _.
  destruct l as [| b l]; [reflexivity |].
  change (String.concat sep ((a :: b :: l) ++ [f]))
    with (a ++ sep ++ String.concat sep ((b :: l) ++ [f])).
  rewrite IH by discriminate.
  change (String.concat sep (a :: b :: l))
    with (a ++ sep ++ String.concat sep (b :: l)).
  now rewrite !string_app_assoc.
Qed.

Lemma str_path_cons (a : string) (rest : list string) :
  str_path (a :: rest)
  = if (a =? "/")%string then "/" ++ String.concat "/" rest
    else String.concat "/" (a :: rest).
Proof.
  destruct a as [| [[] [] [] [] [] [] [] []] [| ? ?]]; reflexivity.
Qed.

(** [str(p / f)] is [str(p)], a separator, [f], for a path of two parts
    or more. *)
Lemma str_path_joinpath (p : Path) (f : string) :
  (2 <= List.length p)%nat -> f <> "" ->
  str_path (p // f) = str_path p ++ "/" ++ f.
Proof.
  intros Hlen Hf. unfold joinpath.
  destruct (String.eqb_spec f ""); [contradiction |].
  destruct p as [| a [| b p]]; cbn in Hlen; try lia.
  change ((a :: b :: p) ++ [f])%list with (a :: ((b :: p) ++ [f]))%list.
  rewrite !str_path_cons.
  destruct (a =? "/")%string.
  - rewrite (concat_snoc "/" f (b :: p)) by discriminate.
    now rewrite string_app_assoc.
  - change (a :: ((b :: p) ++ [f]))%list with ((a :: b :: p) ++ [f])%list.
    now rewrite (concat_snoc "/" f (a :: b :: p)) by discriminate.
Qed.

(** X22. The only program [run_test_case] launches is the interpreter
    on the entry file of the temporary copy: the working directory is
    the copy, the argument is the copy's path, a separator and one of
    main.py, run.py, test.py that exists there, and the timeout is 10.
    Nothing is launched from the fixture directory itself. *)
Theorem child_runs_the_entry_file_of_the_copy :
  forall (w : world) (test_case_dir : Path) (s s' : state)
         (o : exn + result) (temp_path : Path)
         (args : list string) (cwd : string) (timeout : Z),
    run_test_case w test_case_dir s = (s', o) ->
    mkdtemp w = inr temp_path ->
    (2 <= List.length temp_path)%nat ->
    In (Spawn args cwd timeout) (log s') ->
    In (Spawn args cwd timeout) (log s)
    \/ (cwd = str_path (temp_path // name test_case_dir)
        /\ timeout = 10
        /\ exists entry,
            In entry ["main.py"; "run.py"; "test.py"]
            /\ exists_ w (temp_path // name test_case_dir // entry) = true
            /\ args = [executable w; cwd ++ "/" ++ entry]).
Proof.
  intros w d s s' o tmp args cwd timeout Hrun Htemp Hlen.
  rewrite run_test_case_unfold, Htemp in Hrun. cbn zeta in Hrun.
  destruct (copytree w d (tmp // name d)) as [e |].
  { injection Hrun as <- _. cbn [after log]. intros Hin.
    apply in_app_or in Hin as [Hin | Hin]; [now left |].
    cbn in Hin. intuition discriminate. }
  destruct (find_main_file w (tmp // name d) main_files) as [f |] eqn:Hmain.
  2: { injection Hrun as <- _. cbn [after log]. intros Hin.
       apply in_app_or in Hin as [Hin | Hin]; [now left |].
       cbn in Hin. intuition discriminate. }
  injection Hrun as <- _. cbn [after log]. intros Hin.
  apply in_app_or in Hin as [Hin | Hin]; [now left | right].
  cbn in Hin. destruct Hin as [H | [H | [H | [H | []]]]]; try discriminate.
  injection H as <- <- <-.
  apply find_main_file_first in Hmain
    as (before & entry & rest & Hfiles & -> & Hexists & _).
  assert (In entry main_files) as Hentry
      by (rewrite Hfiles; apply in_elt).
  split; [reflexivity |]. split; [reflexivity |].
  exists entry. repeat split; try assumption.
  rewrite str_path_joinpath; [reflexivity | |].
  - unfold joinpath. destruct (name d =? "")%string; [assumption |].
    rewrite length_app. lia.
  - unfold main_files in Hentry. cbn in Hentry.
    destruct Hentry as [<- | [<- | [<- | []]]]; discriminate.
Qed.

Lemma child_runs_the_entry_file_of_the_copy_witness :
  In (Spawn ["/usr/bin/python3";
             "/tmp/tmpq1w2e3/03_missing_module_error/main.py"]
        "/tmp/tmpq1w2e3/03_missing_module_error" 10)
     (log fresh)
  \/ ("/tmp/tmpq1w2e3/03_missing_module_error"
      = str_path (tmp_dir // name fixture)
      /\ 10 = 10
      /\ exists entry,
          In entry ["main.py"; "run.py"; "test.py"]
          /\ exists_ world_completed (tmp_dir // name fixture // entry) = true
          /\ ["/usr/bin/python3";
              "/tmp/tmpq1w2e3/03_missing_module_error/main.py"]
             = [executable world_completed;
                "/tmp/tmpq1w2e3/03_missing_module_error" ++ "/" ++ entry]).
Proof.
  apply (child_runs_the_entry_file_of_the_copy world_completed fixture fresh
           (fst (run_test_case world_completed fixture fresh))
           (snd (run_test_case world_completed fixture fresh)) tmp_dir).
  - apply surjective_pairing.
  - reflexivity.
  - cbn. lia.
  - cbn. auto.
Defined.
